(** * AggregateQueryBuilder: a shallow embedding of src/aggregateQueryBuilder.ts

    The builder owns a main pipeline (an array of stages), a registry of
    named sub-pipelines (a plain JS object used as a map from names to
    arrays of stages) and a counter.  Every public method is embedded as a
    state transformer that may complete normally or throw; a throw keeps
    the mutations done before it, exactly as a JS exception does.

    How the source is read:
    - the registry is created as [{}], so [this.subPipeline[name]] finds
      the object's own entries and, for a name without own entry, the
      properties every plain object inherits from [Object.prototype]
      ([toString], [constructor], ...); [delete] removes own entries only;
    - [push(...entry)] passes the entry's stages as call arguments; an
      engine refuses a call with too many of them with a RangeError.  Where
      that limit lies is the engine's business and is a parameter here;
    - stage documents are JSON-like values; object literals keep the order
      in which the source writes their keys.  The builder never inspects a
      payload it is handed, so numbers are carried as integers;
    - the Mongoose schema and model registry are external and are taken as
      two total functions.

    A second, smaller embedding at the end of the definitions covers the
    draft of the class in which routing to a sub-pipeline is a flag of its
    own and unnamed sub-pipelines get generated names. *)

From stdpp Require Import base option list strings gmap pretty.
From Stdlib Require Import ZArith NArith.

Local Open Scope string_scope.
Local Open Scope list_scope.

(** ** Stage documents *)

#[local] Set Warnings "-register-all".
Inductive JValue : Type :=
| JNull
| JBool (b : bool)
| JNum (n : Z)
| JStr (s : string)
| JArr (items : list JValue)
| JObj (props : list (string * JValue))
| JBuiltin (name : string).

Abbreviation PipelineStage := JValue.

(** [JBuiltin name] is the value found at [Object.prototype[name]]: a
    built-in function, or the prototype object itself for [__proto__]. *)

(** ** What the builder takes from outside

    [schemaRef field] is [this.model.schema.path(field)?.options?.ref] when
    that value is truthy, [None] otherwise; [collectionName ref] is
    [mongoose.model(ref).collection.collectionName]; [spreadFits n] tells
    whether the engine accepts a call that spreads [n] arguments. *)

Record Model : Type := mkModel {
  schemaRef : string → option string;
  collectionName : string → string;
  spreadFits : nat → bool
}.

(** ** Builder state *)

Record Builder : Type := mkBuilder {
  model : Model;
  pipeline : list PipelineStage;
  subPipeline : gmap string (list PipelineStage);
  subPipelineCounter : N
}.

Definition set_pipeline (p : list PipelineStage) (b : Builder) : Builder :=
  mkBuilder (model b) p (subPipeline b) (subPipelineCounter b).

Definition set_subPipeline (r : gmap string (list PipelineStage)) (b : Builder) : Builder :=
  mkBuilder (model b) (pipeline b) r (subPipelineCounter b).

Definition set_subPipelineCounter (c : N) (b : Builder) : Builder :=
  mkBuilder (model b) (pipeline b) (subPipeline b) c.

(** The constructor. *)
Definition constructor (m : Model) : Builder := mkBuilder m [] ∅ 0%N.

(** ** Reading the registry object *)

(** The own property names of [Object.prototype]. *)
Definition objectPrototypeNames : list string :=
  ["constructor"; "__defineGetter__"; "__defineSetter__"; "hasOwnProperty";
   "__lookupGetter__"; "__lookupSetter__"; "isPrototypeOf";
   "propertyIsEnumerable"; "toString"; "valueOf"; "__proto__"; "toLocaleString"].

Definition inherited (name : string) : bool :=
  bool_decide (name ∈ objectPrototypeNames).

(** What [this.subPipeline[name]] evaluates to when it is not [undefined]:
    an own stage array, or the inherited built-in of that name.  Both are
    truthy. *)
Inductive Slot : Type :=
| Own (stages : list PipelineStage)
| Inherited (name : string).

Definition property (reg : gmap string (list PipelineStage)) (name : string)
  : option Slot :=
  match reg !! name with
  | Some stages => Some (Own stages)
  | None => if inherited name then Some (Inherited name) else None
  end.

(** A slot as it appears inside a stage document. *)
Definition slotValue (s : Slot) : JValue :=
  match s with
  | Own stages => JArr stages
  | Inherited name => JBuiltin name
  end.

(** ** Methods: state passing with exceptions *)

(** The built-in errors the engine itself raises. *)
Inductive NativeError : Type := TypeError | RangeError.

(** [Throw message] is [throw new Error(message)]. *)
Inductive completion (A : Type) : Type :=
| Normal (a : A)
| Throw (message : string)
| ThrowNative (e : NativeError).
Arguments Normal {A} a.
Arguments Throw {A} message.
Arguments ThrowNative {A} e.

Definition Method (A : Type) : Type := Builder → completion A * Builder.

#[global] Instance Method_ret : MRet Method := λ A a b, (Normal a, b).

#[global] Instance Method_bind : MBind Method := λ A B k m b,
  match m b with
  | (Normal a, b') => k a b'
  | (Throw msg, b') => (Throw msg, b')
  | (ThrowNative e, b') => (ThrowNative e, b')
  end.

Definition throw {A} (msg : string) : Method A := λ b, (Throw msg, b).

Definition throwNative {A} (e : NativeError) : Method A := λ b, (ThrowNative e, b).

Definition modify (f : Builder → Builder) : Method unit := λ b, (Normal tt, f b).

Definition gets {A} (f : Builder → A) : Method A := λ b, (Normal (f b), b).

(** State after a call and its completion. *)
Definition after {A} (r : completion A * Builder) : Builder := r.2.
Definition outcome {A} (r : completion A * Builder) : completion A := r.1.

Definition throws {A} (r : completion A * Builder) : Prop :=
  ∃ msg, r.1 = Throw msg.

(** ** Private helpers of the class *)

(** An optional string parameter tested by [if (subPipelineName)]:
    [undefined] and the empty string are falsy. *)
Definition truthy (name : option string) : option string :=
  match name with
  | Some s => if decide (s = EmptyString) then None else Some s
  | None => None
  end.

(** Lines 304-307: create the entry unless [this.subPipeline[name]] is
    truthy, then call [push] on whatever [this.subPipeline[name]] is.  An
    inherited built-in has no [push]: calling it is a TypeError. *)
Definition appendToEntry (stage : PipelineStage) (name : string) : Method unit :=
  found ← gets (λ b, property (subPipeline b) name);
  match found with
  | None => modify (λ b, set_subPipeline (<[name := []]> (subPipeline b)) b)
  | Some _ => mret tt
  end;;
  found ← gets (λ b, property (subPipeline b) name);
  match found with
  | Some (Own stages) =>
      modify (λ b, set_subPipeline (<[name := stages ++ [stage]]> (subPipeline b)) b)
  | Some (Inherited _) | None => throwNative TypeError
  end.

(** [addToPipeline], lines 302-311. *)
Definition addToPipeline (stage : PipelineStage) (subPipelineName : option string)
  : Method unit :=
  match truthy subPipelineName with
  | Some name => appendToEntry stage name
  | None => modify (λ b, set_pipeline (pipeline b ++ [stage]) b)
  end.

(** [++] on a JS number: exact below 2^53; at 2^53 the sum rounds back to
    2^53, so the counter stays there. *)
Definition MAX_EXACT : N := 9007199254740992%N.

Definition js_incr (c : N) : N :=
  if (c <? MAX_EXACT)%N then (c + 1)%N else c.

(** [generateDefaultSubPipelineName], lines 325-327. *)
Definition generateDefaultSubPipelineName : Method string :=
  λ b, let c := js_incr (subPipelineCounter b) in
       (Normal ("subPipeline_" +:+ pretty c), set_subPipelineCounter c b).

(** ** Public methods *)

(** [getAndRemoveSubPipeline], lines 289-293. *)
Definition getAndRemoveSubPipeline (name : string) : Method (option Slot) :=
  sub ← gets (λ b, property (subPipeline b) name);
  match sub with
  | Some _ => modify (λ b, set_subPipeline (delete name (subPipeline b)) b)
  | None => mret tt
  end;;
  mret sub.

(** [appendSubPipeline], lines 276-282.  Spreading an inherited built-in
    is a TypeError (it is not iterable); spreading an entry too long for
    the engine is a RangeError, raised before anything is pushed. *)
Definition appendSubPipeline (name : string) : Method unit :=
  sub ← gets (λ b, property (subPipeline b) name);
  match sub with
  | Some (Own stages) =>
      m ← gets model;
      if spreadFits m (length stages) then
        modify (λ b, set_pipeline (pipeline b ++ stages) b);;
        modify (λ b, set_subPipeline (delete name (subPipeline b)) b)
      else throwNative RangeError
  | Some (Inherited _) => throwNative TypeError
  | None => mret tt
  end.

(** [build], lines 317-319. *)
Definition build : Method (list PipelineStage) := gets pipeline.

(** Stage factories: the object literals of each method. *)

Definition matchEqualStage (field : string) (value : JValue) : PipelineStage :=
  JObj [("$match", JObj [(field, value)])].

Definition matchRangeStage (field operator : string) (value : JValue) : PipelineStage :=
  JObj [("$match", JObj [(field, JObj [(operator, value)])])].

(** The stage of [matchIf], lines 104-114, over whatever the three
    retrievals returned. *)
Definition condDocument (condition trueMatch falseMatch : JValue) : PipelineStage :=
  JObj [("$match",
    JObj [("$expr",
      JObj [("$cond",
        JObj [("if", JObj [("$and", condition)]);
              ("then", JObj [("$and", trueMatch)]);
              ("else", JObj [("$and", falseMatch)])])])])].

Definition condStage (condition trueMatch falseMatch : list PipelineStage) : PipelineStage :=
  condDocument (JArr condition) (JArr trueMatch) (JArr falseMatch).

Definition switchStage (switchField : string) (cases : list (JValue * JValue))
  : PipelineStage :=
  JObj [("$addFields",
    JObj [(switchField,
      JObj [("$switch",
        JObj [("branches",
               JArr (map (λ item, JObj [("case", item.1); ("then", item.2)]) cases));
              ("default", JNull)])])])].

Definition lookupStage (from field : string) : PipelineStage :=
  JObj [("$lookup",
    JObj [("from", JStr from);
          ("localField", JStr field);
          ("foreignField", JStr "_id");
          ("as", JStr (field +:+ "Details"))])].

Definition unwindStage (field : string) : PipelineStage :=
  JObj [("$unwind", JStr ("$" +:+ field +:+ "Details"))].

Definition groupStage (v : JValue) : PipelineStage := JObj [("$group", v)].
Definition projectStage (v : JValue) : PipelineStage := JObj [("$project", v)].
Definition sortStage (v : JValue) : PipelineStage := JObj [("$sort", v)].
Definition skipStage (n : Z) : PipelineStage := JObj [("$skip", JNum n)].
Definition limitStage (n : Z) : PipelineStage := JObj [("$limit", JNum n)].
Definition facetStage (v : JValue) : PipelineStage := JObj [("$facet", v)].

Definition matchEqual (field : string) (value : JValue) (subPipelineName : option string)
  : Method unit :=
  addToPipeline (matchEqualStage field value) subPipelineName.

Definition matchRange (field operator : string) (value : JValue)
    (subPipelineName : option string) : Method unit :=
  addToPipeline (matchRangeStage field operator value) subPipelineName.

Definition matchLessThan (field : string) (value : JValue) (subPipelineName : option string)
  : Method unit :=
  matchRange field "$lt" value subPipelineName.

Definition matchGreaterThan (field : string) (value : JValue)
    (subPipelineName : option string) : Method unit :=
  matchRange field "$gt" value subPipelineName.

Definition notFoundMessage (c t f : string) : string :=
  "One or more sub-pipelines not found: " +:+ c +:+ ", " +:+ t +:+ ", " +:+ f.

(** [matchIf], lines 88-118. *)
Definition matchIf (conditionPipelineName trueMatchPipelineName falseMatchPipelineName : string)
    (subPipelineName : option string) : Method unit :=
  condition ← getAndRemoveSubPipeline conditionPipelineName;
  trueMatch ← getAndRemoveSubPipeline trueMatchPipelineName;
  falseMatch ← getAndRemoveSubPipeline falseMatchPipelineName;
  match condition, trueMatch, falseMatch with
  | Some c, Some t, Some f =>
      addToPipeline (condDocument (slotValue c) (slotValue t) (slotValue f))
        subPipelineName
  | _, _, _ =>
      throw (notFoundMessage conditionPipelineName trueMatchPipelineName
               falseMatchPipelineName)
  end.

Definition matchSwitch (switchField : string) (cases : list (JValue * JValue))
    (subPipelineName : option string) : Method unit :=
  addToPipeline (switchStage switchField cases) subPipelineName.

(** [lookup], lines 160-183.  The method is [async] but awaits nothing: its
    body runs to completion when it is called, and what it throws settles
    the promise it returns (see [invoke]). *)
Fixpoint lookup (fields : list string) (subPipelineName : option string) : Method unit :=
  match fields with
  | [] => mret tt
  | field :: rest =>
      m ← gets model;
      match schemaRef m field with
      | Some ref => addToPipeline (lookupStage (collectionName m ref) field) subPipelineName
      | None => mret tt
      end;;
      lookup rest subPipelineName
  end.

(** [unwind], lines 191-197. *)
Fixpoint unwind (fields : list string) (subPipelineName : option string) : Method unit :=
  match fields with
  | [] => mret tt
  | field :: rest =>
      addToPipeline (unwindStage field) subPipelineName;;
      unwind rest subPipelineName
  end.

Definition group (groupConditions : JValue) (subPipelineName : option string) : Method unit :=
  addToPipeline (groupStage groupConditions) subPipelineName.

Definition project (fields : JValue) (subPipelineName : option string) : Method unit :=
  addToPipeline (projectStage fields) subPipelineName.

Definition sort (sortConditions : JValue) (subPipelineName : option string) : Method unit :=
  addToPipeline (sortStage sortConditions) subPipelineName.

Definition skip (skipValue : Z) (subPipelineName : option string) : Method unit :=
  addToPipeline (skipStage skipValue) subPipelineName.

Definition limit (limitValue : Z) (subPipelineName : option string) : Method unit :=
  addToPipeline (limitStage limitValue) subPipelineName.

Definition facet (facets : JValue) (subPipelineName : option string) : Method unit :=
  addToPipeline (facetStage facets) subPipelineName.

(** ** Calls on the public surface *)

Inductive Call : Type :=
| MatchEqual (field : string) (value : JValue) (subPipelineName : option string)
| MatchRange (field operator : string) (value : JValue) (subPipelineName : option string)
| MatchLessThan (field : string) (value : JValue) (subPipelineName : option string)
| MatchGreaterThan (field : string) (value : JValue) (subPipelineName : option string)
| MatchIf (conditionPipelineName trueMatchPipelineName falseMatchPipelineName : string)
    (subPipelineName : option string)
| MatchSwitch (switchField : string) (cases : list (JValue * JValue))
    (subPipelineName : option string)
| Lookup (fields : list string) (subPipelineName : option string)
| Unwind (fields : list string) (subPipelineName : option string)
| Group (groupConditions : JValue) (subPipelineName : option string)
| Project (fields : JValue) (subPipelineName : option string)
| Sort (sortConditions : JValue) (subPipelineName : option string)
| Skip (skipValue : Z) (subPipelineName : option string)
| Limit (limitValue : Z) (subPipelineName : option string)
| Facet (facets : JValue) (subPipelineName : option string)
| AppendSubPipeline (name : string)
| GetAndRemoveSubPipeline (name : string)
| Build.

(** How the promise of an [async] method is settled. *)
Inductive Settled : Type :=
| Fulfilled
| Rejected (message : string)
| RejectedNative (e : NativeError).

(** What a method hands back: [this], a promise of [this], a stage array,
    or whatever [this.subPipeline[name] || null] was. *)
Inductive Returned : Type :=
| This
| PromiseOfThis (settled : Settled)
| Stages (stages : list PipelineStage)
| SlotOrNull (sub : option Slot).

Definition chain (m : Method unit) : Method Returned := m;; mret This.

(** An [async] method never throws to its caller: it returns a promise,
    rejected with what its body threw. *)
Definition async (m : Method unit) : Method Returned := λ b,
  match m b with
  | (Normal _, b') => (Normal (PromiseOfThis Fulfilled), b')
  | (Throw msg, b') => (Normal (PromiseOfThis (Rejected msg)), b')
  | (ThrowNative e, b') => (Normal (PromiseOfThis (RejectedNative e)), b')
  end.

Definition invoke (c : Call) : Method Returned :=
  match c with
  | MatchEqual f v s => chain (matchEqual f v s)
  | MatchRange f o v s => chain (matchRange f o v s)
  | MatchLessThan f v s => chain (matchLessThan f v s)
  | MatchGreaterThan f v s => chain (matchGreaterThan f v s)
  | MatchIf c t f s => chain (matchIf c t f s)
  | MatchSwitch f cs s => chain (matchSwitch f cs s)
  | Lookup fs s => async (lookup fs s)
  | Unwind fs s => chain (unwind fs s)
  | Group v s => chain (group v s)
  | Project v s => chain (project v s)
  | Sort v s => chain (sort v s)
  | Skip n s => chain (skip n s)
  | Limit n s => chain (limit n s)
  | Facet v s => chain (facet v s)
  | AppendSubPipeline n => chain (appendSubPipeline n)
  | GetAndRemoveSubPipeline n => sub ← getAndRemoveSubPipeline n; mret (SlotOrNull sub)
  | Build => stages ← build; mret (Stages stages)
  end.

(** The optional [subPipelineName] argument of a call, and the same call
    with that argument replaced. *)
Definition target (c : Call) : option string :=
  match c with
  | MatchEqual _ _ s | MatchRange _ _ _ s | MatchLessThan _ _ s
  | MatchGreaterThan _ _ s | MatchIf _ _ _ s | MatchSwitch _ _ s
  | Lookup _ s | Unwind _ s | Group _ s | Project _ s | Sort _ s
  | Skip _ s | Limit _ s | Facet _ s => s
  | AppendSubPipeline _ | GetAndRemoveSubPipeline _ | Build => None
  end.

Definition with_target (s : option string) (c : Call) : Call :=
  match c with
  | MatchEqual f v _ => MatchEqual f v s
  | MatchRange f o v _ => MatchRange f o v s
  | MatchLessThan f v _ => MatchLessThan f v s
  | MatchGreaterThan f v _ => MatchGreaterThan f v s
  | MatchIf c t f _ => MatchIf c t f s
  | MatchSwitch f cs _ => MatchSwitch f cs s
  | Lookup fs _ => Lookup fs s
  | Unwind fs _ => Unwind fs s
  | Group v _ => Group v s
  | Project v _ => Project v s
  | Sort v _ => Sort v s
  | Skip n _ => Skip n s
  | Limit n _ => Limit n s
  | Facet v _ => Facet v s
  | AppendSubPipeline _ | GetAndRemoveSubPipeline _ | Build => c
  end.

(** The join stages of a field list, as the specification words it: one
    stage per field with a declared relation, none for the others, in the
    order of the fields. *)
Definition joinStages (m : Model) (fields : list string) : list PipelineStage :=
  omap (λ field,
          match schemaRef m field with
          | Some ref => Some (lookupStage (collectionName m ref) field)
          | None => None
          end) fields.

(** The stages a call constructs from its arguments alone.  [matchIf]
    builds its stage from registry contents and is not listed here. *)
Definition constructed (m : Model) (c : Call) : list PipelineStage :=
  match c with
  | MatchEqual f v _ => [matchEqualStage f v]
  | MatchRange f o v _ => [matchRangeStage f o v]
  | MatchLessThan f v _ => [matchRangeStage f "$lt" v]
  | MatchGreaterThan f v _ => [matchRangeStage f "$gt" v]
  | MatchSwitch f cs _ => [switchStage f cs]
  | Lookup fs _ => joinStages m fs
  | Unwind fs _ => map unwindStage fs
  | Group v _ => [groupStage v]
  | Project v _ => [projectStage v]
  | Sort v _ => [sortStage v]
  | Skip n _ => [skipStage n]
  | Limit n _ => [limitStage n]
  | Facet v _ => [facetStage v]
  | MatchIf _ _ _ _ | AppendSubPipeline _ | GetAndRemoveSubPipeline _ | Build => []
  end.

(** Calls whose stages come from their arguments alone. *)
Definition is_factory (c : Call) : bool :=
  match c with
  | MatchIf _ _ _ _ | AppendSubPipeline _ | GetAndRemoveSubPipeline _ | Build => false
  | _ => true
  end.

(** Every call that routes through [addToPipeline]. *)
Definition is_stage_producing (c : Call) : bool :=
  match c with
  | AppendSubPipeline _ | GetAndRemoveSubPipeline _ | Build => false
  | _ => true
  end.

Definition is_lookup (c : Call) : bool :=
  match c with
  | Lookup _ _ => true
  | _ => false
  end.

(** What a factory call hands back when its routing does not throw. *)
Definition returnedBy (c : Call) : Returned :=
  if is_lookup c then PromiseOfThis Fulfilled else This.

(** [await] on what a call returned: a rejected promise throws its reason. *)
Definition await (r : Returned) : Method unit :=
  match r with
  | PromiseOfThis (Rejected msg) => throw msg
  | PromiseOfThis (RejectedNative e) => throwNative e
  | _ => mret tt
  end.

(** Straight-line client code: the calls in order, each awaited, an
    exception ending the run. *)
Fixpoint run (cs : list Call) : Method unit :=
  match cs with
  | [] => mret tt
  | c :: rest => r ← invoke c; await r;; run rest
  end.

(** The state a client reaches by issuing the calls in order and catching
    every exception: the mutations of a call that throws stay. *)
Definition exec (cs : list Call) (b : Builder) : Builder :=
  foldl (λ b c, after (invoke c b)) b cs.

(** ** Vocabulary of the statements *)

(** A name that cannot be written to: it has no own entry and resolves to
    an inherited built-in. *)
Definition blocked (reg : gmap string (list PipelineStage)) (name : string) : bool :=
  match reg !! name with
  | Some _ => false
  | None => inherited name
  end.

(** A name, or an optional target name, that is not an inherited one. *)
Definition ordinary (name : string) : bool := negb (inherited name).

Definition ordinaryTarget (subPipelineName : option string) : bool :=
  match truthy subPipelineName with
  | Some name => ordinary name
  | None => true
  end.

(** A name [appendSubPipeline] can be called with in state [b] without
    throwing: not an inherited one, and its entry, if any, within what the
    engine accepts as spread arguments. *)
Definition spliceable (b : Builder) (name : string) : bool :=
  ordinary name &&
  match subPipeline b !! name with
  | Some stages => spreadFits (model b) (length stages)
  | None => true
  end.

(** Why a call may complete as it does: the not-found error comes from
    [matchIf], a RangeError from [appendSubPipeline], a TypeError from an
    inherited name used as target or spliced. *)
Definition explains {A} (c : Call) (o : completion A) : Prop :=
  match o with
  | Normal _ => True
  | Throw msg =>
      ∃ cn tn fn sub, c = MatchIf cn tn fn sub ∧ msg = notFoundMessage cn tn fn
  | ThrowNative RangeError => ∃ n, c = AppendSubPipeline n
  | ThrowNative TypeError =>
      ∃ n, inherited n = true ∧ (c = AppendSubPipeline n ∨ truthy (target c) = Some n)
  end.

(** Where a batch of stages lands: appended to the entry of a truthy target
    name (created on the first stage), to the main pipeline otherwise;
    nowhere when the target name is blocked. *)
Definition routed (stages : list PipelineStage) (subPipelineName : option string)
    (b : Builder) : Builder :=
  match truthy subPipelineName, stages with
  | Some name, _ :: _ =>
      if blocked (subPipeline b) name then b
      else set_subPipeline
             (<[name := default [] (subPipeline b !! name) ++ stages]> (subPipeline b)) b
  | Some name, [] => b
  | None, _ => set_pipeline (pipeline b ++ stages) b
  end.

(** How routing a batch of stages completes. *)
Definition routeOutcome (stages : list PipelineStage) (subPipelineName : option string)
    (b : Builder) : completion unit :=
  match truthy subPipelineName, stages with
  | Some name, _ :: _ =>
      if blocked (subPipeline b) name then ThrowNative TypeError else Normal tt
  | _, _ => Normal tt
  end.

(** The registry once [matchIf] has fetched its three names. *)
Definition consumed (c t f : string) (reg : gmap string (list PipelineStage))
  : gmap string (list PipelineStage) :=
  delete f (delete t (delete c reg)).

(** The stage [matchIf] builds, when its three retrievals all find
    something. *)
Definition matchIfStage (reg : gmap string (list PipelineStage)) (c t f : string)
  : option PipelineStage :=
  match property reg c, property (delete c reg) t,
        property (delete t (delete c reg)) f with
  | Some sc, Some st, Some sf =>
      Some (condDocument (slotValue sc) (slotValue st) (slotValue sf))
  | _, _, _ => None
  end.

(** The stages a call without target name adds to the main pipeline of a
    builder whose registry is empty. *)
Definition untargetedStages (m : Model) (c : Call) : list PipelineStage :=
  match c with
  | MatchIf c t f _ => option_list (matchIfStage ∅ c t f)
  | _ => constructed m c
  end.

(** The names produced by [k] successive calls of the name generator. *)
Fixpoint generatedNames (k : nat) (b : Builder) : list (completion string) :=
  match k with
  | O => []
  | S k' =>
      let r := generateDefaultSubPipelineName b in
      outcome r :: generatedNames k' (after r)
  end.

(** A registry as the class keeps it: no own entry under the empty string
    or under an inherited name, and no empty entry. *)
Definition well_formed (reg : gmap string (list PipelineStage)) : Prop :=
  reg !! EmptyString = None ∧
  (∀ n, inherited n = true → reg !! n = None) ∧
  ∀ n, reg !! n ≠ Some [].


(** The registry names a call sequence can write to: the truthy target
    names of its calls. *)
Definition targetNames (cs : list Call) : list string :=
  omap (λ c, truthy (target c)) cs.

(** ** The draft class with a routing flag (src/unnamed/part_002)

    Every stage method of the draft takes [isSubPipeline] and an optional
    name and ends in the same block: the name is
    [subPipelineName || this.generateDefaultSubPipelineName()], and the
    stage goes to the entry of that name when the flag is set, to the main
    pipeline otherwise.  The draft's [matchIf] puts registry arrays into
    its stage without removing them from the registry; it is not part of
    this embedding. *)
Module Draft.

(** Lines 19-21: the counter is read, then incremented. *)
Definition generateDefaultSubPipelineName : Method string :=
  λ b, (Normal ("subPipeline_" +:+ pretty (subPipelineCounter b)),
        set_subPipelineCounter (js_incr (subPipelineCounter b)) b).

Definition pipelineName (subPipelineName : option string) : Method string :=
  match truthy subPipelineName with
  | Some name => mret name
  | None => generateDefaultSubPipelineName
  end.

(** The block shared by the stage methods, e.g. lines 26-33. *)
Definition route (stage : PipelineStage) (isSubPipeline : bool)
    (subPipelineName : option string) : Method unit :=
  name ← pipelineName subPipelineName;
  if isSubPipeline then appendToEntry stage name
  else modify (λ b, set_pipeline (pipeline b ++ [stage]) b).

Definition matchEqual (field : string) (value : JValue) (isSubPipeline : bool)
    (subPipelineName : option string) : Method unit :=
  route (matchEqualStage field value) isSubPipeline subPipelineName.

Definition matchRange (field operator : string) (value : JValue)
    (isSubPipeline : bool) (subPipelineName : option string) : Method unit :=
  route (matchRangeStage field operator value) isSubPipeline subPipelineName.

Definition group (groupConditions : JValue) (isSubPipeline : bool)
    (subPipelineName : option string) : Method unit :=
  route (groupStage groupConditions) isSubPipeline subPipelineName.

(** Lines 86-119: the name is resolved anew for every emitted stage. *)
Fixpoint lookup (fields : list string) (isSubPipeline : bool)
    (subPipelineName : option string) : Method unit :=
  match fields with
  | [] => mret tt
  | field :: rest =>
      m ← gets model;
      match schemaRef m field with
      | Some ref =>
          route (lookupStage (collectionName m ref) field) isSubPipeline
            subPipelineName
      | None => mret tt
      end;;
      lookup rest isSubPipeline subPipelineName
  end.

(** The stage methods of the draft that build their stage from their
    arguments. *)
Inductive Op : Type :=
| MatchEqual (field : string) (value : JValue)
| MatchRange (field operator : string) (value : JValue)
| Group (groupConditions : JValue).


Definition invoke (op : Op) (isSubPipeline : bool) (subPipelineName : option string)
  : Method unit :=
  match op with
  | MatchEqual f v => matchEqual f v isSubPipeline subPipelineName
  | MatchRange f o v => matchRange f o v isSubPipeline subPipelineName
  | Group g => group g isSubPipeline subPipelineName
  end.

(** The names produced by [k] successive calls of the draft's generator. *)
Fixpoint generatedNames (k : nat) (b : Builder) : list (completion string) :=
  match k with
  | O => []
  | S k' =>
      let r := generateDefaultSubPipelineName b in
      outcome r :: generatedNames k' (after r)
  end.

End Draft.

(** ** A concrete client, used to evaluate the model

    The README's [User] model: [friendId] references the [Friend] model,
    whose collection Mongoose names [friends]; an engine that accepts up to
    a hundred thousand spread arguments. *)
Definition userModel : Model :=
  mkModel (λ field, if decide (field = "friendId") then Some "Friend" else None)
          (λ ref, if decide (ref = "Friend") then "friends" else ref)
          (λ n, (N.of_nat n <=? 100000)%N).

(** The call sequence of the specification's example: two named equality
    filters, then a conditional match that names [ageFilter] twice. *)
Definition reuseExample : Method unit :=
  matchEqual "age" (JObj [("gte", JNum 30)]) (Some "ageFilter");;
  matchEqual "city" (JStr "New York") (Some "cityFilter");;
  matchIf "ageFilter" "cityFilter" "ageFilter" None.

(** * Properties *)

(** ** Basic facts about the state and the helpers *)

Lemma Builder_eq (b1 b2 : Builder) :
  model b1 = model b2 → pipeline b1 = pipeline b2 →
  subPipeline b1 = subPipeline b2 → subPipelineCounter b1 = subPipelineCounter b2 →
  b1 = b2.
Proof. destruct b1, b2; simpl; intros; by subst. Qed.

Lemma truthy_Some (o : option string) (name : string) :
  truthy o = Some name ↔ o = Some name ∧ name ≠ EmptyString.
Proof.
  unfold truthy. destruct o as [s|]; [|split; [discriminate | intros [? _]; discriminate]].
  destruct (decide (s = EmptyString)) as [->|Hne]; split.
  - discriminate.
  - intros [[= <-] Hn]. done.
  - intros [= <-]. done.
  - intros [[= <-] _]. done.
Qed.

Lemma truthy_explicit (name : string) :
  name ≠ EmptyString → truthy (Some name) = Some name.
Proof. intros. by apply truthy_Some. Qed.

Lemma truthy_empty : truthy (Some EmptyString) = truthy None.
Proof. reflexivity. Qed.

Lemma property_own (reg : gmap string (list PipelineStage)) name stages :
  reg !! name = Some stages → property reg name = Some (Own stages).
Proof. unfold property. by intros ->. Qed.

Lemma property_absent (reg : gmap string (list PipelineStage)) name :
  reg !! name = None → inherited name = false → property reg name = None.
Proof. unfold property. by intros -> ->. Qed.

Lemma property_None (reg : gmap string (list PipelineStage)) name :
  property reg name = None → reg !! name = None ∧ inherited name = false.
Proof.
  unfold property. destruct (reg !! name); [done|].
  by destruct (inherited name).
Qed.

Lemma property_ordinary (reg : gmap string (list PipelineStage)) name :
  ordinary name = true → property reg name = Own <$> reg !! name.
Proof.
  unfold ordinary, property. destruct (reg !! name); [done|].
  by destruct (inherited name).
Qed.

Lemma blocked_ordinary (reg : gmap string (list PipelineStage)) name :
  ordinary name = true → blocked reg name = false.
Proof.
  unfold ordinary, blocked. destruct (reg !! name); [done|].
  by destruct (inherited name).
Qed.

Lemma blocked_own (reg : gmap string (list PipelineStage)) name stages :
  reg !! name = Some stages → blocked reg name = false.
Proof. unfold blocked. by intros ->. Qed.

Lemma inherited_empty : inherited EmptyString = false.
Proof. reflexivity. Qed.

(** Lines 304-307 either throw with nothing changed or extend the entry. *)
Lemma appendToEntry_spec stage name b :
  appendToEntry stage name b
  = if blocked (subPipeline b) name then (ThrowNative TypeError, b)
    else (Normal tt,
          set_subPipeline
            (<[name := default [] (subPipeline b !! name) ++ [stage]]> (subPipeline b)) b).
Proof.
  unfold appendToEntry, blocked, property, mbind, Method_bind, gets, modify, mret,
    Method_ret, throwNative.
  destruct (subPipeline b !! name) as [old|] eqn:Hold; simpl.
  - by rewrite Hold.
  - destruct (inherited name) eqn:Hin; simpl.
    + by rewrite Hold.
    + rewrite lookup_insert_eq. simpl. by rewrite insert_insert_eq.
Qed.

(** [addToPipeline] routes its single stage, or throws with nothing
    changed. *)
Lemma addToPipeline_routed stage sub b :
  addToPipeline stage sub b = (routeOutcome [stage] sub b, routed [stage] sub b).
Proof.
  unfold addToPipeline, routed, routeOutcome. destruct (truthy sub) as [name|]; [|done].
  rewrite appendToEntry_spec. by destruct (blocked (subPipeline b) name).
Qed.

Lemma routed_cons stage rest sub b :
  routed rest sub (routed [stage] sub b) = routed (stage :: rest) sub b.
Proof.
  unfold routed. destruct (truthy sub) as [name|].
  - destruct (blocked (subPipeline b) name) eqn:Hb.
    + destruct rest; [done|]. by rewrite Hb.
    + destruct rest as [|s rest]; [done|]. cbn [subPipeline set_subPipeline].
      rewrite (blocked_own _ name _ (lookup_insert_eq _ _ _)).
      apply Builder_eq; simpl; try done.
      rewrite lookup_insert_eq, insert_insert_eq. simpl. by rewrite <- app_assoc.
  - apply Builder_eq; simpl; try done. by rewrite <- app_assoc.
Qed.

Lemma routed_nil sub b : routed [] sub b = b.
Proof.
  unfold routed. destruct (truthy sub); [done|].
  apply Builder_eq; simpl; try done. by rewrite app_nil_r.
Qed.

Lemma routed_app stages1 stages2 sub b :
  routed stages2 sub (routed stages1 sub b) = routed (stages1 ++ stages2) sub b.
Proof.
  revert b. induction stages1 as [|s stages1 IH]; intros b.
  - by rewrite routed_nil.
  - simpl. by rewrite <- (routed_cons s stages1), IH, routed_cons.
Qed.

Lemma routed_model stages sub b : model (routed stages sub b) = model b.
Proof.
  unfold routed. destruct (truthy sub) as [name|], stages; try done.
  by destruct (blocked (subPipeline b) name).
Qed.

Lemma routed_counter stages sub b :
  subPipelineCounter (routed stages sub b) = subPipelineCounter b.
Proof.
  unfold routed. destruct (truthy sub) as [name|], stages; try done.
  by destruct (blocked (subPipeline b) name).
Qed.

Lemma routed_untargeted stages sub b :
  truthy sub = None → routed stages sub b = set_pipeline (pipeline b ++ stages) b.
Proof. unfold routed. by intros ->. Qed.

Lemma routeOutcome_untargeted stages sub b :
  truthy sub = None → routeOutcome stages sub b = Normal tt.
Proof. unfold routeOutcome. by intros ->. Qed.

Lemma routeOutcome_cons stage rest sub b :
  routeOutcome (stage :: rest) sub b = routeOutcome [stage] sub b.
Proof. done. Qed.

Lemma routeOutcome_nil sub b : routeOutcome [] sub b = Normal tt.
Proof. unfold routeOutcome. by destruct (truthy sub). Qed.

(** Once a stage has been routed, further stages for the same target are
    routed too. *)
Lemma routeOutcome_after stage rest sub b :
  routeOutcome [stage] sub b = Normal tt →
  routeOutcome rest sub (routed [stage] sub b) = Normal tt.
Proof.
  unfold routeOutcome, routed. destruct (truthy sub) as [name|]; [|by destruct rest].
  destruct (blocked (subPipeline b) name) eqn:Hb; [done|]. intros _.
  destruct rest; [done|]. cbn [subPipeline set_subPipeline].
  by rewrite (blocked_own _ name _ (lookup_insert_eq _ _ _)).
Qed.

(** A throwing route changes nothing. *)
Lemma routed_thrown stages sub b e :
  routeOutcome stages sub b = ThrowNative e → routed stages sub b = b ∧ e = TypeError.
Proof.
  unfold routeOutcome, routed. destruct (truthy sub) as [name|]; [|done].
  destruct stages; [done|].
  destruct (blocked (subPipeline b) name); [by intros [= <-] | done].
Qed.

Lemma routeOutcome_cases stages sub b :
  routeOutcome stages sub b = Normal tt ∨
  routeOutcome stages sub b = ThrowNative TypeError.
Proof.
  unfold routeOutcome. destruct (truthy sub) as [name|]; [|by left].
  destruct stages; [by left|]. destruct (blocked (subPipeline b) name); eauto.
Qed.

Lemma routeOutcome_ordinary stages sub b :
  ordinaryTarget sub = true → routeOutcome stages sub b = Normal tt.
Proof.
  unfold ordinaryTarget, routeOutcome. destruct (truthy sub) as [name|]; [|done].
  intros Ho. destruct stages; [done|]. by rewrite blocked_ordinary.
Qed.

Lemma route_step stage stages sub (k : Method unit) b :
  k (routed [stage] sub b)
  = (routeOutcome stages sub (routed [stage] sub b),
     routed stages sub (routed [stage] sub b)) →
  (addToPipeline stage sub;; k) b
  = (routeOutcome (stage :: stages) sub b, routed (stage :: stages) sub b).
Proof.
  intros Hk. unfold mbind, Method_bind. rewrite addToPipeline_routed.
  assert (Hc : routeOutcome (stage :: stages) sub b = routeOutcome [stage] sub b) by done.
  destruct (routeOutcome_cases [stage] sub b) as [Ho|Ho].
  - rewrite Hc, Ho, Hk, routed_cons. f_equal. by apply routeOutcome_after.
  - rewrite Hc, Ho. destruct (routed_thrown [stage] sub b _ Ho) as [-> _].
    rewrite <- Hc in Ho. by destruct (routed_thrown _ sub b _ Ho) as [-> _].
Qed.

(** The two loops route the stages they construct, in field order, or
    throw at the first one with nothing changed. *)
Lemma lookup_routed fields sub b :
  lookup fields sub b
  = (routeOutcome (joinStages (model b) fields) sub b,
     routed (joinStages (model b) fields) sub b).
Proof.
  revert b. induction fields as [|field rest IH]; intros b.
  - simpl. by rewrite routed_nil, routeOutcome_nil.
  - cbn [lookup]. unfold joinStages. cbn [omap list_omap].
    change (gets model ≫= ?k) with (λ b', k (model b') b').
    cbv beta. destruct (schemaRef (model b) field) as [ref|].
    + apply route_step. by rewrite IH, routed_model.
    + simpl. unfold mbind, Method_bind; simpl. by rewrite IH.
Qed.

Lemma unwind_routed fields sub b :
  unwind fields sub b
  = (routeOutcome (map unwindStage fields) sub b, routed (map unwindStage fields) sub b).
Proof.
  revert b. induction fields as [|field rest IH]; intros b.
  - simpl. by rewrite routed_nil, routeOutcome_nil.
  - cbn [unwind map]. apply route_step. by rewrite IH.
Qed.

(** [getAndRemoveSubPipeline] returns what the name resolves to and deletes
    the own entry, if any. *)
Lemma getAndRemoveSubPipeline_spec name b :
  getAndRemoveSubPipeline name b
  = (Normal (property (subPipeline b) name),
     set_subPipeline (delete name (subPipeline b)) b).
Proof.
  unfold getAndRemoveSubPipeline, mbind, Method_bind, gets, modify, mret, Method_ret.
  destruct (property (subPipeline b) name) eqn:Hn; simpl; [done|].
  f_equal. apply Builder_eq; simpl; try done.
  symmetry. apply delete_id. by apply property_None in Hn as [? _].
Qed.

Lemma appendSubPipeline_spec name b :
  appendSubPipeline name b
  = match property (subPipeline b) name with
    | Some (Own stages) =>
        if spreadFits (model b) (length stages) then
          (Normal tt,
           set_subPipeline (delete name (subPipeline b))
             (set_pipeline (pipeline b ++ stages) b))
        else (ThrowNative RangeError, b)
    | Some (Inherited _) => (ThrowNative TypeError, b)
    | None => (Normal tt, b)
    end.
Proof.
  unfold appendSubPipeline, mbind, Method_bind, gets, modify, mret, Method_ret,
    throwNative.
  destruct (property (subPipeline b) name) as [[stages|n]|]; simpl; try done.
  by destruct (spreadFits (model b) (length stages)).
Qed.

Lemma matchIf_spec c t f sub b :
  matchIf c t f sub b =
  let b3 := set_subPipeline (consumed c t f (subPipeline b)) b in
  match matchIfStage (subPipeline b) c t f with
  | Some stage => (routeOutcome [stage] sub b3, routed [stage] sub b3)
  | None => (Throw (notFoundMessage c t f), b3)
  end.
Proof.
  unfold matchIf, matchIfStage, mbind, Method_bind.
  rewrite !getAndRemoveSubPipeline_spec. simpl.
  destruct (property (subPipeline b) c), (property (delete c (subPipeline b)) t),
    (property (delete t (delete c (subPipeline b))) f);
    rewrite ?addToPipeline_routed; done.
Qed.

Lemma lookup_consumed c t f (reg : gmap string (list PipelineStage)) n :
  consumed c t f reg !! n
  = if decide (n = c ∨ n = t ∨ n = f) then None else reg !! n.
Proof.
  unfold consumed. rewrite !lookup_delete.
  destruct (decide (n = c ∨ n = t ∨ n = f)) as [Hn|Hn];
    repeat case_decide; subst; try done; exfalso; intuition congruence.
Qed.

Lemma matchIfStage_None reg c t f :
  property reg c = None ∨ property reg t = None ∨ property reg f = None →
  matchIfStage reg c t f = None.
Proof.
  intros Habsent. unfold matchIfStage.
  destruct (property reg c) as [sc|] eqn:Hc; [|done].
  destruct (property (delete c reg) t) as [st|] eqn:Ht; [|done].
  destruct (property (delete t (delete c reg)) f) as [sf|] eqn:Hf; [|done].
  exfalso.
  assert (Hdel : ∀ (r : gmap string (list PipelineStage)) k n,
            property r n = None → property (delete k r) n = None).
  { intros r k n Hn. apply property_None in Hn as [Hr Hi].
    apply property_absent; [|done]. rewrite lookup_delete. by case_decide. }
  destruct Habsent as [H|[H|H]].
  - congruence.
  - apply (Hdel _ c) in H. congruence.
  - apply (Hdel _ c), (Hdel _ t) in H. congruence.
Qed.

Lemma matchIfStage_present reg c t f cs ts fs :
  c ≠ t → c ≠ f → t ≠ f →
  reg !! c = Some cs → reg !! t = Some ts → reg !! f = Some fs →
  matchIfStage reg c t f = Some (condStage cs ts fs).
Proof.
  intros Hct Hcf Htf Hc Ht Hf. unfold matchIfStage.
  rewrite (property_own _ _ _ Hc).
  rewrite (property_own (delete c reg) t ts) by by rewrite lookup_delete_ne.
  by rewrite (property_own (delete t (delete c reg)) f fs)
    by by rewrite !lookup_delete_ne.
Qed.

Lemma matchIf_missing c t f sub b :
  property (subPipeline b) c = None ∨ property (subPipeline b) t = None ∨
  property (subPipeline b) f = None →
  matchIf c t f sub b
  = (Throw (notFoundMessage c t f), set_subPipeline (consumed c t f (subPipeline b)) b).
Proof.
  intros Habsent. rewrite matchIf_spec. simpl. by rewrite matchIfStage_None.
Qed.

Lemma matchIf_present c t f sub b cs ts fs :
  c ≠ t → c ≠ f → t ≠ f →
  subPipeline b !! c = Some cs → subPipeline b !! t = Some ts →
  subPipeline b !! f = Some fs →
  matchIf c t f sub b
  = (routeOutcome [condStage cs ts fs] sub
       (set_subPipeline (consumed c t f (subPipeline b)) b),
     routed [condStage cs ts fs] sub
       (set_subPipeline (consumed c t f (subPipeline b)) b)).
Proof.
  intros Hct Hcf Htf Hc Ht Hf. rewrite matchIf_spec. simpl.
  by rewrite (matchIfStage_present _ _ _ _ _ _ _ Hct Hcf Htf Hc Ht Hf).
Qed.

Lemma after_invoke_factory c b :
  is_factory c = true →
  after (invoke c b) = routed (constructed (model b) c) (target c) b.
Proof.
  destruct c; try discriminate; intros _; simpl;
    unfold chain, async, mbind, Method_bind, matchEqual, matchLessThan,
      matchGreaterThan, matchRange, matchSwitch, group, project, sort, skip, limit,
      facet;
    rewrite ?addToPipeline_routed, ?lookup_routed, ?unwind_routed;
    match goal with
    | |- context [routeOutcome ?s ?t ?b] => by destruct (routeOutcome s t b)
    end.
Qed.

(** A factory call, awaited: it completes as its routing does. *)
Lemma awaited_factory c b :
  is_factory c = true →
  (r ← invoke c; await r) b
  = (routeOutcome (constructed (model b) c) (target c) b,
     routed (constructed (model b) c) (target c) b).
Proof.
  destruct c; try discriminate; intros _; simpl;
    unfold chain, async, mbind, Method_bind, matchEqual, matchLessThan,
      matchGreaterThan, matchRange, matchSwitch, group, project, sort, skip, limit,
      facet;
    rewrite ?addToPipeline_routed, ?lookup_routed, ?unwind_routed;
    match goal with
    | |- context [routeOutcome ?s ?t ?b] => by destruct (routeOutcome s t b) as [[]| |]
    end.
Qed.

Lemma invoke_factory c b :
  is_factory c = true →
  routeOutcome (constructed (model b) c) (target c) b = Normal tt →
  invoke c b = (Normal (returnedBy c), routed (constructed (model b) c) (target c) b).
Proof.
  destruct c; try discriminate; intros _; simpl;
    unfold chain, async, mbind, Method_bind, matchEqual, matchLessThan,
      matchGreaterThan, matchRange, matchSwitch, group, project, sort, skip, limit,
      facet;
    rewrite ?addToPipeline_routed, ?lookup_routed, ?unwind_routed;
    by intros ->.
Qed.

(** What each call does to the state, whatever it returns. *)
Lemma after_invoke (c : Call) (b : Builder) :
  after (invoke c b) =
  match c with
  | MatchIf c' t f sub =>
      let b3 := set_subPipeline (consumed c' t f (subPipeline b)) b in
      match matchIfStage (subPipeline b) c' t f with
      | Some stage => routed [stage] sub b3
      | None => b3
      end
  | AppendSubPipeline n =>
      match property (subPipeline b) n with
      | Some (Own stages) =>
          if spreadFits (model b) (length stages) then
            set_subPipeline (delete n (subPipeline b))
              (set_pipeline (pipeline b ++ stages) b)
          else b
      | _ => b
      end
  | GetAndRemoveSubPipeline n => set_subPipeline (delete n (subPipeline b)) b
  | Build => b
  | _ => routed (constructed (model b) c) (target c) b
  end.
Proof.
  destruct c; try (by rewrite after_invoke_factory); simpl;
    unfold chain, mbind, Method_bind.
  - rewrite matchIf_spec. simpl.
    destruct (matchIfStage (subPipeline b) conditionPipelineName
                trueMatchPipelineName falseMatchPipelineName) as [stage|]; [|done].
    by destruct (routeOutcome [stage] subPipelineName _).
  - rewrite appendSubPipeline_spec.
    destruct (property (subPipeline b) name) as [[stages|n]|]; try done.
    by destruct (spreadFits (model b) (length stages)).
  - by rewrite getAndRemoveSubPipeline_spec.
  - done.
Qed.

(** ** Conditional match *)

(** C1, as amended.  When one of the three names resolves to nothing
    (no own entry and no inherited property of that name), [matchIf]
    throws the not-found error (whose message lists all three names), emits
    no stage and leaves the main pipeline, the model and the counter as
    they were; the registry afterwards has none of the three names and is
    unchanged at every other name. *)
Theorem matchIf_missing_throws (b : Builder) (c t f : string) (sub : option string) :
  property (subPipeline b) c = None ∨ property (subPipeline b) t = None ∨
  property (subPipeline b) f = None →
  let r := matchIf c t f sub b in
  outcome r = Throw (notFoundMessage c t f) ∧
  pipeline (after r) = pipeline b ∧
  model (after r) = model b ∧
  subPipelineCounter (after r) = subPipelineCounter b ∧
  ∀ n, subPipeline (after r) !! n
       = if decide (n = c ∨ n = t ∨ n = f) then None else subPipeline b !! n.
Proof.
  intros Habsent. simpl. rewrite (matchIf_missing _ _ _ _ _ Habsent).
  unfold outcome, after; simpl. repeat split; try done.
  intros n. apply lookup_consumed.
Qed.

Lemma matchIf_missing_throws_witness :
  let b := after (matchEqual "age" (JNum 30) (Some "cond") (constructor userModel)) in
  let r := matchIf "cond" "yes" "no" None b in
  outcome r = Throw "One or more sub-pipelines not found: cond, yes, no" ∧
  pipeline (after r) = [] ∧
  subPipeline (after r) !! "cond" = None.
Proof.
  simpl.
  pose proof (matchIf_missing_throws
    (after (matchEqual "age" (JNum 30) (Some "cond") (constructor userModel)))
    "cond" "yes" "no" None (or_intror (or_introl eq_refl))) as H.
  simpl in H. destruct H as (Ho & Hp & _ & _ & Hreg).
  split; [exact Ho|]. split; [exact Hp|].
  rewrite Hreg. reflexivity.
Defined.

(** C1, as stated, fails: with only the condition entry present the call
    throws, but the condition entry is gone afterwards. *)
Lemma matchIf_missing_not_atomic :
  let b := after (matchEqual "age" (JNum 30) (Some "cond") (constructor userModel)) in
  let r := matchIf "cond" "yes" "no" None b in
  subPipeline b !! "yes" = None ∧
  subPipeline b !! "cond" = Some [matchEqualStage "age" (JNum 30)] ∧
  subPipeline (after r) !! "cond" = None ∧
  ¬ (throws r ∧ pipeline (after r) = pipeline b ∧ subPipeline (after r) = subPipeline b).
Proof.
  simpl. split; [reflexivity|]. split; [reflexivity|]. split; [reflexivity|].
  intros (_ & _ & Hreg).
  apply (f_equal (λ reg : gmap string (list PipelineStage), reg !! "cond")) in Hreg.
  vm_compute in Hreg. discriminate.
Qed.

(** C2, at the failing input.  With three distinct names all present and
    the inherited name [constructor] as target, [matchIf] consumes the
    three entries and then throws a TypeError: no stage is stored
    anywhere. *)
Theorem matchIf_inherited_target_loses_entries :
  let b := exec [MatchEqual "age" (JNum 30) (Some "ageFilter");
                 MatchEqual "city" (JStr "New York") (Some "cityFilter");
                 MatchEqual "height" (JNum 160) (Some "heightFilter")]
             (constructor userModel) in
  let r := matchIf "ageFilter" "cityFilter" "heightFilter" (Some "constructor") b in
  subPipeline b !! "ageFilter" = Some [matchEqualStage "age" (JNum 30)] ∧
  subPipeline b !! "cityFilter" = Some [matchEqualStage "city" (JStr "New York")] ∧
  subPipeline b !! "heightFilter" = Some [matchEqualStage "height" (JNum 160)] ∧
  outcome r = ThrowNative TypeError ∧
  pipeline (after r) = [] ∧
  subPipeline (after r) = ∅.
Proof. simpl. repeat split; reflexivity. Qed.

(** C3, as amended.  The example sequence does not succeed: the second
    retrieval of [ageFilter] finds the entry already consumed, so [matchIf]
    throws; the main pipeline stays empty and both filters are absent from
    the registry afterwards. *)
Theorem reuseExample_throws (m : Model) :
  let r := reuseExample (constructor m) in
  outcome r
  = Throw "One or more sub-pipelines not found: ageFilter, cityFilter, ageFilter" ∧
  pipeline (after r) = [] ∧
  subPipeline (after r) !! "ageFilter" = None ∧
  subPipeline (after r) !! "cityFilter" = None.
Proof. simpl. repeat split; reflexivity. Qed.

(** C3, as stated, fails: the run neither succeeds nor leaves a stage in
    the main pipeline. *)
Lemma reuseExample_not_one_stage :
  let r := reuseExample (constructor userModel) in
  ¬ (outcome r = Normal tt ∧
     (∃ stage, pipeline (after r) = [stage]) ∧
     subPipeline (after r) !! "ageFilter" = None ∧
     subPipeline (after r) !! "cityFilter" = None).
Proof. simpl. intros (Ho & _). vm_compute in Ho. discriminate. Qed.

(** ** Inherited names *)

(** C6, at the failing input.  [matchEqual] with the target name
    [toString] throws a TypeError; no entry is created and the stage is
    stored nowhere. *)
Theorem matchEqual_inherited_name_throws :
  let r := invoke (MatchEqual "age" (JNum 30) (Some "toString")) (constructor userModel) in
  outcome r = ThrowNative TypeError ∧
  after r = constructor userModel.
Proof. simpl. split; reflexivity. Qed.

(** An entry longer than the engine accepts as spread arguments is not
    spliced: the call throws a RangeError and the entry stays. *)
Lemma appendSubPipeline_too_long name b stages :
  subPipeline b !! name = Some stages →
  spreadFits (model b) (length stages) = false →
  appendSubPipeline name b = (ThrowNative RangeError, b).
Proof.
  intros Hs Hfits. rewrite appendSubPipeline_spec, (property_own _ _ _ Hs).
  by rewrite Hfits.
Qed.

(** C7, at the failing input.  [appendSubPipeline] of the name
    [constructor], which has no entry, is not a silent no-op: it throws a
    TypeError. *)
Theorem appendSubPipeline_inherited_name_throws :
  subPipeline (constructor userModel) !! "constructor" = None ∧
  appendSubPipeline "constructor" (constructor userModel)
  = (ThrowNative TypeError, constructor userModel).
Proof. split; reflexivity. Qed.

(** C8, at the failing input.  [lookup] of a field with a declared
    relation, given the target name [toString], emits no stage: the promise
    it returns is rejected with a TypeError. *)
Theorem lookup_inherited_name_rejects :
  let r := invoke (Lookup ["friendId"] (Some "toString")) (constructor userModel) in
  schemaRef userModel "friendId" = Some "Friend" ∧
  outcome r = Normal (PromiseOfThis (RejectedNative TypeError)) ∧
  after r = constructor userModel.
Proof. simpl. repeat split; reflexivity. Qed.

(** C10, at the failing input.  On a fresh builder
    [getAndRemoveSubPipeline] of the name [constructor] returns the
    inherited built-in: neither null nor a list of stages. *)
Theorem getAndRemoveSubPipeline_inherited_name :
  getAndRemoveSubPipeline "constructor" (constructor userModel)
  = (Normal (Some (Inherited "constructor")), constructor userModel).
Proof. reflexivity. Qed.

(** ** Routing *)

Lemma Method_bind_assoc {A B C} (m : Method A) (f : A → Method B) (g : B → Method C) b :
  ((m ≫= f) ≫= g) b = (m ≫= (λ a, f a ≫= g)) b.
Proof.
  unfold mbind, Method_bind. by destruct (m b) as [[a|msg|e] b'].
Qed.

Lemma run_cons c cs b :
  run (c :: cs) b = ((r ← invoke c; await r);; run cs) b.
Proof. cbn [run]. by rewrite Method_bind_assoc. Qed.

Lemma run_factory (cs : list Call) (b : Builder) :
  Forall (λ c, is_factory c = true) cs →
  Forall (λ c, target c = None) cs →
  run cs b
  = (Normal tt, set_pipeline (pipeline b ++ concat (map (constructed (model b)) cs)) b).
Proof.
  intros Hcs. revert b. induction Hcs as [|c cs Hc _ IH]; intros b Ht.
  - simpl. f_equal. apply Builder_eq; simpl; try done. by rewrite app_nil_r.
  - apply Forall_cons in Ht as [Htc Ht].
    rewrite run_cons. unfold mbind at 1, Method_bind at 1.
    rewrite (awaited_factory _ _ Hc), Htc. simpl.
    rewrite IH by done.
    f_equal. apply Builder_eq; simpl; try done. by rewrite <- app_assoc.
Qed.

Lemma exec_cons c cs b : exec (c :: cs) b = exec cs (after (invoke c b)).
Proof. done. Qed.

Lemma exec_app cs1 cs2 b : exec (cs1 ++ cs2) b = exec cs2 (exec cs1 b).
Proof. unfold exec. apply foldl_app. Qed.

Lemma after_invoke_untargeted_empty (c : Call) (b : Builder) :
  is_stage_producing c = true → target c = None → subPipeline b = ∅ →
  after (invoke c b) = set_pipeline (pipeline b ++ untargetedStages (model b) c) b.
Proof.
  intros Hsp Ht Hreg. rewrite after_invoke.
  destruct c; try discriminate; simpl in Ht; subst; try done.
  rewrite Hreg. simpl.
  destruct (matchIfStage ∅ conditionPipelineName trueMatchPipelineName
              falseMatchPipelineName) as [stage|]; simpl.
  - apply Builder_eq; simpl; try done.
  - apply Builder_eq; simpl; try done. by rewrite app_nil_r.
Qed.

Lemma exec_untargeted (cs : list Call) (b : Builder) :
  Forall (λ c, is_stage_producing c = true) cs →
  Forall (λ c, target c = None) cs →
  subPipeline b = ∅ →
  exec cs b
  = set_pipeline (pipeline b ++ concat (map (untargetedStages (model b)) cs)) b.
Proof.
  intros Hsp. revert b.
  induction Hsp as [|c cs Hc _ IH]; intros b Ht Hreg.
  - unfold exec; simpl. apply Builder_eq; simpl; try done. by rewrite app_nil_r.
  - apply Forall_cons in Ht as [Htc Ht].
    rewrite exec_cons, (after_invoke_untargeted_empty _ _ Hc Htc Hreg).
    rewrite IH by done. apply Builder_eq; simpl; try done. by rewrite <- app_assoc.
Qed.

(** C5.  On a fresh builder, any finite sequence of stage-producing calls
    without a target name leaves in the main pipeline, and [build] returns,
    exactly the stages those calls constructed, in call order, also when
    the client catches what a [matchIf] among them throws; the registry is
    still empty.  When every call constructs its stages from its arguments,
    the straight-line run completes and [build] returns their stages in
    call order. *)
Theorem build_returns_stages_in_call_order (m : Model) (cs : list Call) :
  Forall (λ c, is_stage_producing c = true) cs →
  Forall (λ c, target c = None) cs →
  let b := exec cs (constructor m) in
  outcome (build b) = Normal (concat (map (untargetedStages m) cs)) ∧
  after (build b) = b ∧
  subPipeline b = ∅ ∧
  (Forall (λ c, is_factory c = true) cs →
   let r := (run cs;; build) (constructor m) in
   outcome r = Normal (concat (map (constructed m) cs)) ∧
   pipeline (after r) = concat (map (constructed m) cs) ∧
   subPipeline (after r) = ∅).
Proof.
  intros Hsp Ht. simpl. rewrite (exec_untargeted _ _ Hsp Ht) by done.
  unfold build, gets, outcome, after; simpl.
  split; [done|]. split; [done|]. split; [done|].
  intros Hf. unfold mbind, Method_bind.
  by rewrite (run_factory _ _ Hf Ht).
Qed.

Lemma build_returns_stages_in_call_order_witness :
  let r := (run [MatchEqual "age" (JNum 30) None;
                 Lookup ["name"; "friendId"] None;
                 Unwind ["friendId"] None;
                 Limit 10 None];; build) (constructor userModel) in
  outcome r
  = Normal [matchEqualStage "age" (JNum 30);
            lookupStage "friends" "friendId";
            unwindStage "friendId";
            limitStage 10].
Proof.
  simpl.
  pose proof (build_returns_stages_in_call_order userModel
    [MatchEqual "age" (JNum 30) None;
     Lookup ["name"; "friendId"] None;
     Unwind ["friendId"] None;
     Limit 10 None]
    ltac:(repeat constructor) ltac:(repeat constructor)) as H.
  simpl in H. destruct H as (_ & _ & _ & H).
  apply H. repeat constructor.
Defined.

(** ** Invariants of reachable states *)

Lemma exec_invariant (P : Builder → Prop) :
  (∀ c b, P b → P (after (invoke c b))) →
  ∀ cs b, P b → P (exec cs b).
Proof.
  intros Hstep cs. unfold exec.
  induction cs as [|c cs IH]; intros b Hb; simpl; [done|].
  apply IH, Hstep, Hb.
Qed.

Lemma well_formed_delete reg n : well_formed reg → well_formed (delete n reg).
Proof.
  intros (He & Hi & Hn). split; [|split].
  - rewrite lookup_delete. by case_decide.
  - intros k Hk. rewrite lookup_delete. case_decide; [done | by apply Hi].
  - intros k. rewrite lookup_delete. case_decide; [done | apply Hn].
Qed.

Lemma well_formed_routed stages sub b :
  well_formed (subPipeline b) → well_formed (subPipeline (routed stages sub b)).
Proof.
  intros (He & Hi & Hn). unfold routed.
  destruct (truthy sub) as [name|] eqn:Hsub; [|done].
  destruct stages as [|s stages]; [done|].
  destruct (blocked (subPipeline b) name) eqn:Hb; [done|].
  apply truthy_Some in Hsub as [_ Hname]. simpl. split; [|split].
  - by rewrite lookup_insert_ne.
  - intros k Hk. rewrite lookup_insert. case_decide; [subst k|by apply Hi].
    exfalso. unfold blocked in Hb. rewrite (Hi _ Hk) in Hb. congruence.
  - intros k. rewrite lookup_insert. case_decide; [|apply Hn].
    intros [= Happ]. by apply app_eq_nil in Happ as [_ ?].
Qed.

Lemma well_formed_invoke c b :
  well_formed (subPipeline b) → well_formed (subPipeline (after (invoke c b))).
Proof.
  intros Hwf. rewrite after_invoke.
  assert (Hc : ∀ c' t f, well_formed (consumed c' t f (subPipeline b))).
  { intros. unfold consumed. by do 3 apply well_formed_delete. }
  destruct c; try (by apply well_formed_routed); simpl.
  - destruct (matchIfStage (subPipeline b) conditionPipelineName
                trueMatchPipelineName falseMatchPipelineName);
      [by apply well_formed_routed; simpl | simpl; apply Hc].
  - destruct (property (subPipeline b) name) as [[stages|n]|]; try done.
    destruct (spreadFits (model b) (length stages)); [|done].
    simpl. by apply well_formed_delete.
  - by apply well_formed_delete.
  - done.
Qed.

Lemma well_formed_exec m cs : well_formed (subPipeline (exec cs (constructor m))).
Proof.
  apply (exec_invariant (λ b, well_formed (subPipeline b))).
  - apply well_formed_invoke.
  - split; [done|]. split; intros n; simpl; by rewrite ?lookup_empty.
Qed.

Lemma invoke_with_empty_target c b :
  invoke (with_target (Some EmptyString) c) b = invoke (with_target None c) b.
Proof.
  destruct c; simpl; try done; unfold chain, async, mbind, Method_bind.
  - by rewrite !lookup_routed.
  - by rewrite !unwind_routed.
Qed.

(** C9.  The empty string as target name behaves as no target name.  Every
    call gives the same result and state either way; [addToPipeline] and
    every call that constructs its stages from its arguments return and
    append the stages to the main pipeline, registry untouched; [matchIf]
    appends the stage it builds, if any, to the main pipeline; and no state
    reached from a fresh builder has a registry entry keyed by the empty
    string. *)
Theorem empty_name_routes_to_main (c : Call) (b : Builder) (m : Model) (cs : list Call) :
  invoke (with_target (Some EmptyString) c) b = invoke (with_target None c) b ∧
  (∀ stage,
     addToPipeline stage (Some EmptyString) b
     = (Normal tt,
        mkBuilder (model b) (pipeline b ++ [stage]) (subPipeline b)
          (subPipelineCounter b))) ∧
  (is_factory c = true →
     invoke (with_target (Some EmptyString) c) b
     = (Normal (returnedBy c),
        mkBuilder (model b) (pipeline b ++ constructed (model b) c) (subPipeline b)
          (subPipelineCounter b))) ∧
  (∀ cn tn fn,
     after (invoke (MatchIf cn tn fn (Some EmptyString)) b)
     = mkBuilder (model b)
         (pipeline b ++ option_list (matchIfStage (subPipeline b) cn tn fn))
         (consumed cn tn fn (subPipeline b)) (subPipelineCounter b)) ∧
  subPipeline (exec cs (constructor m)) !! EmptyString = None.
Proof.
  split; [apply invoke_with_empty_target|]. split; [|split; [|split]].
  - intros stage. by rewrite addToPipeline_routed.
  - intros Hf.
    assert (Hf' : is_factory (with_target (Some EmptyString) c) = true) by by destruct c.
    assert (Ht : target (with_target (Some EmptyString) c) = Some EmptyString)
      by by destruct c.
    assert (Hs : constructed (model b) (with_target (Some EmptyString) c)
                 = constructed (model b) c) by by destruct c.
    assert (Hr : returnedBy (with_target (Some EmptyString) c) = returnedBy c)
      by by destruct c.
    rewrite (invoke_factory _ _ Hf')
      by (rewrite Ht; by apply routeOutcome_untargeted).
    by rewrite Ht, Hs, Hr.
  - intros cn tn fn. rewrite after_invoke. simpl.
    destruct (matchIfStage (subPipeline b) cn tn fn); simpl; [done|].
    apply Builder_eq; simpl; try done. by rewrite app_nil_r.
  - exact (proj1 (well_formed_exec m cs)).
Qed.

Lemma empty_name_routes_to_main_witness :
  invoke (MatchEqual "age" (JNum 30) (Some EmptyString)) (constructor userModel)
  = (Normal This, mkBuilder userModel [matchEqualStage "age" (JNum 30)] ∅ 0%N).
Proof.
  pose proof (empty_name_routes_to_main (MatchEqual "age" (JNum 30) None)
                (constructor userModel) userModel []) as (_ & _ & H & _).
  exact (H eq_refl).
Defined.

(** ** Default names *)






Lemma draft_unnamed_call_counter field value b :
  subPipelineCounter (after (Draft.matchEqual field value false None b))
  = js_incr (subPipelineCounter b).
Proof. reflexivity. Qed.

(** The draft counts its unnamed calls: after [k] of them, at most 2^53,
    the counter of a fresh builder is [k]. *)
Lemma draft_counter_counts (k : nat) (m : Model) :
  (N.of_nat k ≤ MAX_EXACT)%N →
  subPipelineCounter
    (Nat.iter k (λ b, after (Draft.matchEqual "age" (JNum 30) false None b))
       (constructor m))
  = N.of_nat k.
Proof.
  unfold MAX_EXACT. induction k as [|k IH]; intros Hk; [done|].
  rewrite Nat.iter_succ. cbv beta. rewrite draft_unnamed_call_counter, IH by lia.
  unfold js_incr, MAX_EXACT.
  destruct (N.ltb_spec (N.of_nat k) 9007199254740992); lia.
Qed.




(** * Further properties of the builder *)

(** ** Helpers *)

Lemma after_invoke_model c b : model (after (invoke c b)) = model b.
Proof.
  rewrite after_invoke. destruct c; try apply routed_model; simpl; try done.
  - by destruct (matchIfStage (subPipeline b) conditionPipelineName
                   trueMatchPipelineName falseMatchPipelineName);
      rewrite ?routed_model.
  - destruct (property (subPipeline b) name) as [[stages|n]|]; try done.
    by destruct (spreadFits (model b) (length stages)).
Qed.

Lemma after_invoke_counter (c : Call) (b : Builder) :
  subPipelineCounter (after (invoke c b)) = subPipelineCounter b.
Proof.
  rewrite after_invoke. destruct c; try apply routed_counter; simpl; try done.
  - by destruct (matchIfStage (subPipeline b) conditionPipelineName
                   trueMatchPipelineName falseMatchPipelineName);
      rewrite ?routed_counter.
  - destruct (property (subPipeline b) name) as [[stages|n]|]; try done.
    by destruct (spreadFits (model b) (length stages)).
Qed.

Lemma routed_pipeline_prefix stages sub b :
  pipeline b `prefix_of` pipeline (routed stages sub b).
Proof.
  unfold routed. destruct (truthy sub) as [name|], stages; simpl; try done;
    try (by apply prefix_app_r).
  by destruct (blocked (subPipeline b) name).
Qed.

Lemma after_invoke_pipeline_prefix c b :
  pipeline b `prefix_of` pipeline (after (invoke c b)).
Proof.
  rewrite after_invoke. destruct c; try apply routed_pipeline_prefix; simpl; try done.
  - destruct (matchIfStage (subPipeline b) conditionPipelineName
                trueMatchPipelineName falseMatchPipelineName) as [stage|]; [|done].
    apply (routed_pipeline_prefix _ _
      (set_subPipeline (consumed conditionPipelineName trueMatchPipelineName
                          falseMatchPipelineName (subPipeline b)) b)).
  - destruct (property (subPipeline b) name) as [[stages|n]|]; try done.
    destruct (spreadFits (model b) (length stages)); [|done].
    simpl. by apply prefix_app_r.
Qed.

Lemma spliceable_spec b name :
  spliceable b name = true →
  ordinary name = true ∧
  ∀ stages, subPipeline b !! name = Some stages →
            spreadFits (model b) (length stages) = true.
Proof.
  unfold spliceable. intros [Ho Hf]%andb_true_iff. split; [done|].
  intros stages Hs. by rewrite Hs in Hf.
Qed.

Lemma appendSubPipeline_spliceable name b :
  spliceable b name = true →
  appendSubPipeline name b
  = (Normal tt,
     match subPipeline b !! name with
     | Some stages =>
         mkBuilder (model b) (pipeline b ++ stages) (delete name (subPipeline b))
           (subPipelineCounter b)
     | None => b
     end).
Proof.
  intros [Ho Hf]%spliceable_spec. rewrite appendSubPipeline_spec, property_ordinary by done.
  destruct (subPipeline b !! name) as [stages|]; simpl; [|done].
  by rewrite Hf.
Qed.

(** ** Retrieval *)

(** X1.  [getAndRemoveSubPipeline] returns what the name resolves to (the
    own entry; failing that the inherited built-in of an inherited name;
    failing that null), removes the own entry of that name only and leaves
    the main pipeline alone; an immediate second retrieval finds no own
    entry any more, returns null (for an inherited name the built-in again)
    and changes nothing. *)
Theorem getAndRemoveSubPipeline_twice (name : string) (b : Builder) :
  let r1 := getAndRemoveSubPipeline name b in
  let r2 := getAndRemoveSubPipeline name (after r1) in
  outcome r1
  = Normal match subPipeline b !! name with
           | Some stages => Some (Own stages)
           | None => if inherited name then Some (Inherited name) else None
           end ∧
  pipeline (after r1) = pipeline b ∧
  (∀ n, subPipeline (after r1) !! n
        = if decide (n = name) then None else subPipeline b !! n) ∧
  r2 = (Normal (if inherited name then Some (Inherited name) else None), after r1).
Proof.
  simpl. rewrite !getAndRemoveSubPipeline_spec. unfold outcome, after; simpl.
  split; [done|]. split; [done|]. split.
  - intros n. rewrite lookup_delete. repeat case_decide; congruence.
  - unfold property. rewrite lookup_delete_eq. f_equal.
    apply Builder_eq; simpl; try done. apply delete_id, lookup_delete_eq.
Qed.

(** ** The main pipeline only grows *)

(** X2.  No call sequence removes, replaces or reorders what the main
    pipeline already holds: the pipeline before is a prefix of the pipeline
    after, whatever the calls return or throw. *)
Theorem pipeline_is_append_only (cs : list Call) (b : Builder) :
  pipeline b `prefix_of` pipeline (exec cs b).
Proof.
  revert b. induction cs as [|c cs IH]; intros b; [done|].
  rewrite exec_cons. etrans; [apply after_invoke_pipeline_prefix | apply IH].
Qed.

(** ** Failure *)

Lemma bind_step {A B} (m : Method A) (k : A → Method B) b o b' :
  m b = (o, b') →
  (m ≫= k) b
  = match o with
    | Normal a => k a b'
    | Throw msg => (Throw msg, b')
    | ThrowNative e => (ThrowNative e, b')
    end.
Proof. unfold mbind, Method_bind. intros ->. by destruct o. Qed.

Lemma chain_awaited (m : Method unit) b :
  (r ← chain m; await r) b
  = (match outcome (chain m b) with
     | Normal _ => Normal tt
     | Throw msg => Throw msg
     | ThrowNative e => ThrowNative e
     end, after (chain m b)).
Proof.
  unfold chain, outcome, after, mbind, Method_bind.
  by destruct (m b) as [[[]|?|?] ?].
Qed.

(** A call that is not [lookup] returns no promise: awaiting it changes
    nothing. *)
Lemma awaited_sync c b :
  is_lookup c = false →
  (r ← invoke c; await r) b
  = (match outcome (invoke c b) with
     | Normal _ => Normal tt
     | Throw msg => Throw msg
     | ThrowNative e => ThrowNative e
     end, after (invoke c b)).
Proof.
  intros Hl. destruct c; try discriminate; cbn [invoke]; try apply chain_awaited.
  - unfold mbind, Method_bind. by rewrite getAndRemoveSubPipeline_spec.
  - done.
Qed.

Lemma routeOutcome_thrown stages sub b e :
  routeOutcome stages sub b = ThrowNative e →
  e = TypeError ∧ ∃ n, truthy sub = Some n ∧ inherited n = true.
Proof.
  unfold routeOutcome. destruct (truthy sub) as [name|]; [|done].
  destruct stages; [done|]. unfold blocked.
  destruct (subPipeline b !! name); [done|].
  destruct (inherited name) eqn:Hi; [|done]. intros [= <-]. eauto.
Qed.

Lemma routeOutcome_not_Throw stages sub b msg :
  routeOutcome stages sub b ≠ Throw msg.
Proof. by destruct (routeOutcome_cases stages sub b) as [-> | ->]. Qed.

Lemma outcome_invoke_factory c b :
  is_factory c = true → is_lookup c = false →
  outcome (invoke c b)
  = match routeOutcome (constructed (model b) c) (target c) b with
    | Normal _ => Normal This
    | Throw msg => Throw msg
    | ThrowNative e => ThrowNative e
    end.
Proof.
  destruct c; try discriminate; intros _ _; simpl;
    unfold chain, mbind, Method_bind, matchEqual, matchLessThan,
      matchGreaterThan, matchRange, matchSwitch, group, project, sort, skip, limit,
      facet;
    rewrite ?addToPipeline_routed, ?unwind_routed;
    match goal with
    | |- context [routeOutcome ?s ?t ?b] => by destruct (routeOutcome s t b) as [[]| |]
    end.
Qed.

Lemma invoke_explained c b : explains c (outcome (invoke c b)).
Proof.
  destruct (is_lookup c) eqn:Hl.
  { destruct c; try discriminate. simpl. unfold async, outcome.
    by destruct (lookup fields subPipelineName b) as [[?| |] ?]. }
  destruct (is_factory c) eqn:Hf.
  { rewrite (outcome_invoke_factory _ _ Hf Hl).
    destruct (routeOutcome (constructed (model b) c) (target c) b) as [[]|msg|e] eqn:Ho;
      [done | by apply routeOutcome_not_Throw in Ho |].
    apply routeOutcome_thrown in Ho as (-> & n & Hn & Hi). simpl. eauto. }
  destruct c; try discriminate; simpl; unfold chain, mbind, Method_bind, outcome.
  - rewrite matchIf_spec. simpl.
    destruct (matchIfStage _ _ _ _) as [stage|]; simpl; [|eauto 6].
    destruct (routeOutcome [stage] subPipelineName _) as [[]|msg|e] eqn:Ho;
      [done | by apply routeOutcome_not_Throw in Ho |].
    apply routeOutcome_thrown in Ho as (-> & n & Hn & Hi). simpl. eauto.
  - rewrite appendSubPipeline_spec. unfold property.
    destruct (subPipeline b !! name) as [stages|]; simpl.
    + destruct (spreadFits (model b) (length stages)); simpl; eauto.
    + destruct (inherited name) eqn:Hi; simpl; eauto.
  - by rewrite getAndRemoveSubPipeline_spec.
  - done.
Qed.

Lemma explains_unit (c : Call) (o : completion Returned) :
  explains c o →
  explains c match o with
             | Normal _ => Normal tt
             | Throw msg => Throw msg
             | ThrowNative e => ThrowNative e
             end.
Proof. by destruct o. Qed.

(** X3.  What a straight-line run without [lookup] calls can throw: the
    not-found error comes from a [matchIf] of the run, with that call's
    message; a RangeError comes from an [appendSubPipeline]; a TypeError
    comes from an inherited name used as target name or spliced.  Nothing
    else is ever thrown. *)
Theorem thrown_errors_explained (cs : list Call) (b : Builder) :
  Forall (λ c, is_lookup c = false) cs →
  outcome (run cs b) = Normal tt ∨ ∃ c, c ∈ cs ∧ explains c (outcome (run cs b)).
Proof.
  intros Hcs. revert b. induction Hcs as [|c cs Hc _ IH]; intros b; [by left|].
  rewrite run_cons, (bind_step _ _ _ _ _ (awaited_sync _ _ Hc)).
  pose proof (explains_unit _ _ (invoke_explained c b)) as He.
  destruct (outcome (invoke c b)) as [v|msg|e]; cbv iota beta;
    try (unfold outcome at 1 2; cbn [fst]).
  - destruct (IH (after (invoke c b))) as [H|(c' & Hin & H)]; [by left|].
    right. exists c'. split; [apply elem_of_cons; by right | exact H].
  - right. exists c. split; [apply elem_of_cons; by left | exact He].
  - right. exists c. split; [apply elem_of_cons; by left | exact He].
Qed.

Lemma thrown_errors_explained_witness :
  outcome (run [MatchEqual "age" (JNum 30) (Some "a"); MatchIf "a" "b" "c" None]
             (constructor userModel))
  = Throw "One or more sub-pipelines not found: a, b, c" ∧
  (outcome (run [MatchEqual "age" (JNum 30) (Some "a"); MatchIf "a" "b" "c" None]
              (constructor userModel)) = Normal tt ∨
   ∃ c, c ∈ [MatchEqual "age" (JNum 30) (Some "a"); MatchIf "a" "b" "c" None] ∧
        explains c (outcome (run [MatchEqual "age" (JNum 30) (Some "a");
                                  MatchIf "a" "b" "c" None]
                               (constructor userModel)))).
Proof.
  split; [reflexivity|].
  apply (thrown_errors_explained
           [MatchEqual "age" (JNum 30) (Some "a"); MatchIf "a" "b" "c" None]
           (constructor userModel)).
  repeat constructor.
Defined.

(** X4.  For three names that are not inherited ones and a target that is
    not an inherited name either, [matchIf] returns normally exactly when
    the three names are pairwise distinct and each has a registry entry; a
    call naming one sub-pipeline twice throws the not-found error. *)
Theorem matchIf_succeeds_iff (c t f : string) (sub : option string) (b : Builder) :
  ordinary c = true → ordinary t = true → ordinary f = true →
  ordinaryTarget sub = true →
  (outcome (matchIf c t f sub b) = Normal tt
   ↔ c ≠ t ∧ c ≠ f ∧ t ≠ f ∧
     is_Some (subPipeline b !! c) ∧ is_Some (subPipeline b !! t) ∧
     is_Some (subPipeline b !! f)) ∧
  (outcome (matchIf c t f sub b) = Normal tt ∨
   outcome (matchIf c t f sub b) = Throw (notFoundMessage c t f)).
Proof.
  intros Hoc Hot Hof Hos. rewrite matchIf_spec. simpl.
  unfold matchIfStage. rewrite !property_ordinary by done.
  destruct (subPipeline b !! c) as [cs|] eqn:Hc; simpl.
  2:{ split; [|by right]. split; [done|]. by intros (_ & _ & _ & [? ?] & _). }
  destruct (delete c (subPipeline b) !! t) as [ts|] eqn:Ht; simpl.
  2:{ split; [|by right]. split; [done|].
      intros (Hct & _ & _ & _ & [ts Hts] & _).
      rewrite lookup_delete_ne in Ht by done. congruence. }
  destruct (delete t (delete c (subPipeline b)) !! f) as [fs|] eqn:Hf; simpl.
  2:{ split; [|by right]. split; [done|].
      intros (_ & Hcf & Htf & _ & _ & [fs Hfs]).
      rewrite !lookup_delete_ne in Hf by done. congruence. }
  rewrite routeOutcome_ordinary by done. split; [|by left].
  split; [intros _|done].
  apply lookup_delete_Some in Ht as [Hct Ht].
  apply lookup_delete_Some in Hf as [Htf Hf].
  apply lookup_delete_Some in Hf as [Hcf Hf].
  rewrite Ht, Hf. eauto 10.
Qed.

Lemma matchIf_succeeds_iff_witness :
  outcome (matchIf "a" "b" "a" None
             (exec [MatchEqual "age" (JNum 30) (Some "a");
                    MatchEqual "city" (JStr "NY") (Some "b")] (constructor userModel)))
  = Throw "One or more sub-pipelines not found: a, b, a".
Proof.
  destruct (matchIf_succeeds_iff "a" "b" "a" None
              (exec [MatchEqual "age" (JNum 30) (Some "a");
                     MatchEqual "city" (JStr "NY") (Some "b")] (constructor userModel))
              eq_refl eq_refl eq_refl eq_refl) as [Hiff [H|H]].
  - apply Hiff in H as (_ & Hne & _). by destruct Hne.
  - exact H.
Defined.

(** ** Composition of routing and splicing *)

Lemma exec_factory (cs : list Call) (b : Builder) :
  Forall (λ c, is_factory c = true) cs →
  exec cs b = foldl (λ b c, routed (constructed (model b) c) (target c) b) b cs.
Proof.
  intros Hcs. revert b. induction Hcs as [|c cs Hc _ IH]; intros b; [done|].
  rewrite exec_cons, IH. simpl. by rewrite (after_invoke_factory _ _ Hc).
Qed.

Lemma foldl_routed_same_target (cs : list Call) (sub : option string) (b : Builder) :
  Forall (λ c, target c = sub) cs →
  foldl (λ b c, routed (constructed (model b) c) (target c) b) b cs
  = routed (concat (map (constructed (model b)) cs)) sub b.
Proof.
  intros Hcs. revert b. induction Hcs as [|c cs Hc _ IH]; intros b; simpl.
  - by rewrite routed_nil.
  - by rewrite IH, routed_model, Hc, routed_app.
Qed.

Lemma constructed_with_target m sub c :
  constructed m (with_target sub c) = constructed m c.
Proof. by destruct c. Qed.

Lemma is_factory_with_target sub c : is_factory (with_target sub c) = is_factory c.
Proof. by destruct c. Qed.

Lemma target_with_target sub c :
  is_factory c = true → target (with_target sub c) = sub.
Proof. by destruct c. Qed.

(** X5.  Routing a run of stage-constructing calls to one fresh name (not
    an inherited one) and then splicing that name leaves the builder in
    exactly the state the same calls reach without a target name, provided
    the engine accepts that many stages as spread arguments. *)
Theorem route_then_splice_is_direct_append (cs : list Call) (name : string)
    (b : Builder) :
  name ≠ EmptyString →
  ordinary name = true →
  subPipeline b !! name = None →
  Forall (λ c, is_factory c = true) cs →
  Forall (λ c, target c = Some name) cs →
  spreadFits (model b) (length (concat (map (constructed (model b)) cs))) = true →
  exec (cs ++ [AppendSubPipeline name]) b = exec (map (with_target None) cs) b.
Proof.
  intros Hne Ho Hfresh Hf Ht Hfits.
  assert (Hf' : Forall (λ c, is_factory c = true) (map (with_target None) cs)).
  { clear Ht Hfits. induction Hf; simpl; constructor;
      [by rewrite is_factory_with_target | done]. }
  assert (Ht' : Forall (λ c, target c = None) (map (with_target None) cs)).
  { clear Ht Hf' Hfits. induction Hf; simpl; constructor;
      [by apply target_with_target | done]. }
  rewrite (exec_factory _ _ Hf'), (foldl_routed_same_target _ None _ Ht').
  rewrite exec_app, (exec_factory _ _ Hf), (foldl_routed_same_target _ (Some name) _ Ht).
  rewrite map_map.
  rewrite (map_ext (λ c, constructed (model b) (with_target None c))
             (constructed (model b)))
    by (intros; apply constructed_with_target).
  rewrite (exec_cons (AppendSubPipeline name) []). unfold exec; cbn [foldl].
  rewrite after_invoke, routed_model, property_ordinary by done. unfold routed.
  rewrite (truthy_explicit _ Hne), (blocked_ordinary _ _ Ho). simpl.
  destruct (concat (map (constructed (model b)) cs)) as [|s stages] eqn:Hstages; simpl.
  - rewrite Hfresh. simpl. apply Builder_eq; simpl; try done. by rewrite app_nil_r.
  - rewrite lookup_insert_eq, Hfresh. simpl. simpl in Hfits. rewrite Hfits.
    apply Builder_eq; simpl; try done. by apply delete_insert_id.
Qed.

Lemma route_then_splice_is_direct_append_witness :
  exec [MatchEqual "age" (JNum 30) (Some "filters");
        Lookup ["name"; "friendId"] (Some "filters");
        Limit 10 (Some "filters");
        AppendSubPipeline "filters"] (constructor userModel)
  = exec [MatchEqual "age" (JNum 30) None;
          Lookup ["name"; "friendId"] None;
          Limit 10 None] (constructor userModel).
Proof.
  exact (route_then_splice_is_direct_append
    [MatchEqual "age" (JNum 30) (Some "filters");
     Lookup ["name"; "friendId"] (Some "filters");
     Limit 10 (Some "filters")] "filters" (constructor userModel)
    ltac:(discriminate) eq_refl eq_refl ltac:(repeat constructor)
    ltac:(repeat constructor) eq_refl).
Defined.

Lemma routed_commute stages1 stages2 sub1 sub2 b :
  truthy sub1 ≠ truthy sub2 →
  routed stages2 sub2 (routed stages1 sub1 b)
  = routed stages1 sub1 (routed stages2 sub2 b).
Proof.
  intros Hne. unfold routed.
  destruct (truthy sub1) as [n1|], (truthy sub2) as [n2|]; try done.
  - assert (Hn : n1 ≠ n2) by congruence.
    destruct stages1 as [|s1 stages1], stages2 as [|s2 stages2]; try done.
    destruct (blocked (subPipeline b) n1) eqn:H1,
      (blocked (subPipeline b) n2) eqn:H2; cbn [subPipeline set_subPipeline];
      unfold blocked in *; rewrite ?lookup_insert_ne by done;
      rewrite ?H1, ?H2; try done.
    apply Builder_eq; simpl; try done.
    rewrite ?lookup_insert_ne by done. by apply insert_insert_ne.
  - destruct stages1 as [|s1 stages1]; [done|]. cbn [subPipeline set_pipeline].
    by destruct (blocked (subPipeline b) n1).
  - destruct stages2 as [|s2 stages2]; [done|]. cbn [subPipeline set_pipeline].
    by destruct (blocked (subPipeline b) n2).
Qed.

(** X6.  Two stage-constructing calls routed to different destinations
    (two different names, or a name and the main pipeline) commute: either
    order leaves the same state. *)
Theorem calls_to_distinct_destinations_commute (c1 c2 : Call) (b : Builder) :
  is_factory c1 = true → is_factory c2 = true →
  truthy (target c1) ≠ truthy (target c2) →
  exec [c1; c2] b = exec [c2; c1] b.
Proof.
  intros H1 H2 Hne. unfold exec; simpl.
  rewrite !after_invoke_factory, !routed_model by done.
  by apply routed_commute.
Qed.

Lemma calls_to_distinct_destinations_commute_witness :
  exec [MatchEqual "age" (JNum 30) (Some "a"); Limit 10 None] (constructor userModel)
  = exec [Limit 10 None; MatchEqual "age" (JNum 30) (Some "a")] (constructor userModel).
Proof.
  exact (calls_to_distinct_destinations_commute
    (MatchEqual "age" (JNum 30) (Some "a")) (Limit 10 None) (constructor userModel)
    eq_refl eq_refl ltac:(discriminate)).
Defined.

(** X7.  Routing a stage-constructing call to a fresh name (not an
    inherited one) and retrieving that name at once hands back exactly the
    stages the call constructed (null when it constructed none) as an own
    entry, and restores the state before the call. *)
Theorem route_then_retrieve_restores (c : Call) (name : string) (b : Builder) :
  is_factory c = true →
  target c = Some name →
  name ≠ EmptyString →
  ordinary name = true →
  subPipeline b !! name = None →
  (r ← invoke c; await r;; getAndRemoveSubPipeline name) b
  = (Normal match constructed (model b) c with
            | [] => None
            | stages => Some (Own stages)
            end, b).
Proof.
  intros Hf Ht Hne Ho Hfresh.
  rewrite <- Method_bind_assoc.
  rewrite (bind_step _ _ _ _ _ (awaited_factory _ _ Hf)).
  rewrite routeOutcome_ordinary
    by (unfold ordinaryTarget; by rewrite Ht, (truthy_explicit _ Hne)).
  rewrite getAndRemoveSubPipeline_spec, property_ordinary, Ht by done.
  unfold routed. rewrite (truthy_explicit _ Hne), (blocked_ordinary _ _ Ho).
  destruct (constructed (model b) c) as [|s stages]; simpl.
  - rewrite Hfresh. f_equal. apply Builder_eq; simpl; try done. by apply delete_id.
  - rewrite lookup_insert_eq, Hfresh. simpl. f_equal.
    apply Builder_eq; simpl; try done. by apply delete_insert_id.
Qed.

Lemma route_then_retrieve_restores_witness :
  (r ← invoke (Unwind ["a"; "b"] (Some "u")); await r;; getAndRemoveSubPipeline "u")
    (constructor userModel)
  = (Normal (Some (Own [unwindStage "a"; unwindStage "b"])), constructor userModel).
Proof.
  exact (route_then_retrieve_restores (Unwind ["a"; "b"] (Some "u")) "u"
           (constructor userModel) eq_refl eq_refl ltac:(discriminate) eq_refl eq_refl).
Defined.

Lemma Method_bind_ext {A B} (m : Method A) (k1 k2 : A → Method B) b :
  (∀ a b', k1 a b' = k2 a b') → (m ≫= k1) b = (m ≫= k2) b.
Proof.
  intros Hk. unfold mbind, Method_bind. destruct (m b) as [[a|?|?] b']; auto.
Qed.

(** ** Field lists *)

(** X8.  [lookup] and [unwind] over a concatenated field list are the same
    as the two calls in sequence, for any target name. *)
Theorem field_lists_split_over_append (fs1 fs2 : list string) (sub : option string)
    (b : Builder) :
  lookup (fs1 ++ fs2) sub b = (lookup fs1 sub;; lookup fs2 sub) b ∧
  unwind (fs1 ++ fs2) sub b = (unwind fs1 sub;; unwind fs2 sub) b.
Proof.
  split; revert b; induction fs1 as [|f fs1 IH]; intros b; try done;
    cbn [app lookup unwind]; symmetry; rewrite Method_bind_assoc.
  - apply Method_bind_ext. intros m' b'. rewrite Method_bind_assoc.
    apply Method_bind_ext. intros _ b''. symmetry. apply IH.
  - apply Method_bind_ext. intros _ b'. symmetry. apply IH.
Qed.

Lemma length_joinStages m fields :
  length (joinStages m fields)
  = length (filter (λ f, is_Some (schemaRef m f)) fields).
Proof.
  unfold joinStages. induction fields as [|f fields IH]; [done|].
  rewrite filter_cons. cbn [omap list_omap].
  destruct (schemaRef m f) as [ref|]; case_decide as Hd.
  - simpl. by rewrite IH.
  - exfalso. apply Hd. by eexists.
  - by destruct Hd.
  - done.
Qed.

(** X9.  Without a target name [unwind] adds one stage per field, whether
    or not the schema declares a relation for it, while [lookup] adds one
    stage per field with a relation only, so never more than [unwind]. *)
Theorem unwind_ignores_schema (fields : list string) (b : Builder) :
  let related := filter (λ f, is_Some (schemaRef (model b) f)) fields in
  length (pipeline (after (unwind fields None b)))
  = length (pipeline b) + length fields ∧
  length (pipeline (after (lookup fields None b)))
  = length (pipeline b) + length related ∧
  (length related ≤ length fields)%nat.
Proof.
  simpl. rewrite unwind_routed, lookup_routed. unfold after; simpl.
  rewrite !length_app, length_map, length_joinStages.
  split; [done|]. split; [done|]. apply length_filter.
Qed.

(** X10.  With a fresh non-empty target name that is not an inherited
    one, [lookup] creates the entry exactly when some field has a declared
    relation, and [unwind] exactly when the field list is non-empty: an
    empty or relation-free call leaves no empty entry behind. *)
Theorem field_calls_create_entry_iff (fields : list string) (name : string)
    (b : Builder) :
  name ≠ EmptyString →
  ordinary name = true →
  subPipeline b !! name = None →
  (is_Some (subPipeline (after (lookup fields (Some name) b)) !! name)
   ↔ ∃ f, f ∈ fields ∧ is_Some (schemaRef (model b) f)) ∧
  (is_Some (subPipeline (after (unwind fields (Some name) b)) !! name)
   ↔ fields ≠ []).
Proof.
  intros Hne Ho Hfresh. rewrite lookup_routed, unwind_routed.
  unfold after, routed; cbn [snd].
  rewrite (truthy_explicit _ Hne), (blocked_ordinary _ _ Ho). split.
  - destruct (joinStages (model b) fields) as [|s stages] eqn:Hj; simpl.
    + rewrite Hfresh. split; [by intros [? ?]|].
      intros (f & Hin & [ref Href]). exfalso.
      assert (Hs : lookupStage (collectionName (model b) ref) f
                   ∈ joinStages (model b) fields).
      { unfold joinStages. apply list_elem_of_omap. exists f. by rewrite Href. }
      rewrite Hj in Hs. by apply not_elem_of_nil in Hs.
    + rewrite lookup_insert_eq. split; [intros _|by eauto].
      assert (Hs : s ∈ joinStages (model b) fields)
        by (rewrite Hj; apply elem_of_cons; by left).
      unfold joinStages in Hs. apply list_elem_of_omap in Hs as (f & Hin & Hf).
      exists f. split; [done|]. destruct (schemaRef (model b) f); [eauto | done].
  - destruct fields as [|f fields]; simpl.
    + rewrite Hfresh. split; [by intros [? ?] | done].
    + rewrite lookup_insert_eq. split; [done | eauto].
Qed.

Lemma field_calls_create_entry_iff_witness :
  subPipeline (after (lookup ["name"; "city"] (Some "joins") (constructor userModel)))
    !! "joins" = None ∧
  is_Some (subPipeline (after (lookup ["name"; "friendId"] (Some "joins")
                                 (constructor userModel))) !! "joins").
Proof.
  split.
  - reflexivity.
  - apply (field_calls_create_entry_iff ["name"; "friendId"] "joins"
             (constructor userModel) ltac:(discriminate) eq_refl eq_refl).
    exists "friendId". split; [repeat constructor | by eexists].
Defined.

(** ** What no call does *)

(** X11.  No public call advances the name counter or replaces the model:
    in every state reached from a fresh builder the counter is still zero,
    so the name generator never runs. *)
Theorem counter_and_model_never_change (cs : list Call) (b : Builder) (m : Model) :
  subPipelineCounter (exec cs b) = subPipelineCounter b ∧
  model (exec cs b) = model b ∧
  subPipelineCounter (exec cs (constructor m)) = 0%N.
Proof.
  assert (H : ∀ b', subPipelineCounter (exec cs b') = subPipelineCounter b' ∧
                    model (exec cs b') = model b').
  { induction cs as [|c cs IH]; intros b'; [done|].
    rewrite exec_cons. destruct (IH (after (invoke c b'))) as [-> ->].
    by rewrite after_invoke_counter, after_invoke_model. }
  destruct (H b) as [Hc Hm]. destruct (H (constructor m)) as [Hc' _]. done.
Qed.

Lemma routed_key stages sub b n :
  is_Some (subPipeline (routed stages sub b) !! n) →
  is_Some (subPipeline b !! n) ∨ truthy sub = Some n.
Proof.
  unfold routed. destruct (truthy sub) as [name|]; [|by left].
  destruct stages as [|s stages]; [by left|].
  destruct (blocked (subPipeline b) name); [by left|]. simpl.
  rewrite lookup_insert. case_decide; [subst; by right | by left].
Qed.

Lemma after_invoke_key c b n :
  is_Some (subPipeline (after (invoke c b)) !! n) →
  is_Some (subPipeline b !! n) ∨ truthy (target c) = Some n.
Proof.
  rewrite after_invoke.
  assert (Hc : ∀ c' t f, is_Some (consumed c' t f (subPipeline b) !! n) →
                         is_Some (subPipeline b !! n)).
  { intros c' t f. rewrite lookup_consumed. case_decide; [by intros [? ?] | done]. }
  assert (Hd : ∀ k, is_Some (delete k (subPipeline b) !! n) →
                    is_Some (subPipeline b !! n)).
  { intros k. rewrite lookup_delete. case_decide; [by intros [? ?] | done]. }
  destruct c; try apply routed_key; simpl.
  - destruct (matchIfStage (subPipeline b) conditionPipelineName
                trueMatchPipelineName falseMatchPipelineName) as [stage|]; simpl;
      [|intros H; left; by eapply Hc].
    intros H. apply routed_key in H as [H|H]; [left; exact (Hc _ _ _ H) | right; exact H].
  - destruct (property (subPipeline b) name) as [[stages|k]|]; try by left.
    destruct (spreadFits (model b) (length stages)); [|by left].
    simpl. intros H. left. by eapply Hd.
  - intros H. left. by eapply Hd.
  - by left.
Qed.

(** X12.  The builder never invents a registry name: every name present
    after a call sequence was present before it or is the non-empty target
    name of one of the calls. *)
Theorem registry_names_come_from_targets (cs : list Call) (b : Builder) (n : string) :
  is_Some (subPipeline (exec cs b) !! n) →
  is_Some (subPipeline b !! n) ∨ n ∈ targetNames cs.
Proof.
  revert b. induction cs as [|c cs IH]; intros b; [by left|].
  rewrite exec_cons. intros H. unfold targetNames. simpl.
  destruct (IH _ H) as [Hb|Hin].
  - apply after_invoke_key in Hb as [Hb|Hb]; [by left|].
    right. rewrite Hb. apply elem_of_cons. by left.
  - right. destruct (truthy (target c)); [apply elem_of_cons; by right | done].
Qed.

Lemma registry_names_come_from_targets_witness :
  is_Some (subPipeline (constructor userModel) !! "a") ∨
  "a" ∈ targetNames [MatchEqual "age" (JNum 30) (Some "a"); Limit 10 None].
Proof.
  apply (registry_names_come_from_targets
           [MatchEqual "age" (JNum 30) (Some "a"); Limit 10 None]
           (constructor userModel) "a").
  by eexists.
Defined.

(** ** Conditional match, where it succeeds *)

(** X13.  [matchIf] may route its stage to one of the names it consumes:
    the old entry is consumed like the other two, and the name then holds
    the new conditional stage alone; the main pipeline is unchanged.  (Were
    that name an inherited one, which no entry the builder created can be,
    the three entries would be consumed and the call end in a TypeError.) *)
Theorem matchIf_into_consumed_name (c t f name : string) (b : Builder)
    (cs ts fs : list PipelineStage) :
  c ≠ t → c ≠ f → t ≠ f →
  subPipeline b !! c = Some cs →
  subPipeline b !! t = Some ts →
  subPipeline b !! f = Some fs →
  name = c ∨ name = t ∨ name = f →
  name ≠ EmptyString →
  let r := matchIf c t f (Some name) b in
  outcome r = (if inherited name then ThrowNative TypeError else Normal tt) ∧
  pipeline (after r) = pipeline b ∧
  subPipeline (after r) !! name
  = (if inherited name then None else Some [condStage cs ts fs]) ∧
  ∀ n, n ≠ name →
       subPipeline (after r) !! n
       = if decide (n = c ∨ n = t ∨ n = f) then None else subPipeline b !! n.
Proof.
  intros Hct Hcf Htf Hc Ht Hf Hname Hne. simpl.
  rewrite (matchIf_present _ _ _ _ _ _ _ _ Hct Hcf Htf Hc Ht Hf).
  unfold outcome, after, routed, routeOutcome; cbn [fst snd].
  rewrite (truthy_explicit _ Hne). cbn [subPipeline set_subPipeline].
  assert (Hgone : consumed c t f (subPipeline b) !! name = None)
    by (rewrite lookup_consumed; by rewrite decide_True).
  unfold blocked. rewrite Hgone.
  destruct (inherited name); simpl.
  - split; [done|]. split; [done|]. split; [done|].
    intros n _. apply lookup_consumed.
  - split; [done|]. split; [done|]. split; [by rewrite lookup_insert_eq|].
    intros n Hn. rewrite lookup_insert_ne by done. apply lookup_consumed.
Qed.

Lemma matchIf_into_consumed_name_witness :
  let b := exec [MatchEqual "age" (JNum 30) (Some "a");
                 MatchEqual "city" (JStr "NY") (Some "b");
                 MatchEqual "height" (JNum 160) (Some "c")] (constructor userModel) in
  subPipeline (after (matchIf "a" "b" "c" (Some "a") b)) !! "a"
  = Some [condStage [matchEqualStage "age" (JNum 30)]
            [matchEqualStage "city" (JStr "NY")]
            [matchEqualStage "height" (JNum 160)]].
Proof.
  simpl.
  pose proof (matchIf_into_consumed_name "a" "b" "c" "a"
    (exec [MatchEqual "age" (JNum 30) (Some "a");
           MatchEqual "city" (JStr "NY") (Some "b");
           MatchEqual "height" (JNum 160) (Some "c")] (constructor userModel))
    [matchEqualStage "age" (JNum 30)] [matchEqualStage "city" (JStr "NY")]
    [matchEqualStage "height" (JNum 160)]
    ltac:(discriminate) ltac:(discriminate) ltac:(discriminate)
    eq_refl eq_refl eq_refl (or_introl eq_refl) ltac:(discriminate)) as H.
  simpl in H. exact (proj1 (proj2 (proj2 H))).
Defined.

(** X16.  With three distinct names all present and a target that is not
    an inherited name, [matchIf] returns, the three entries are consumed,
    and exactly one stage, embedding the three consumed lists under [$and]
    as if/then/else, is appended to the target location: the main pipeline
    when the target name is absent or empty, the entry of the target name
    otherwise (created if the registry, once the three names are consumed,
    has none). *)
Theorem matchIf_consumes_three (b : Builder) (c t f : string) (sub : option string)
    (cs ts fs : list PipelineStage) :
  c ≠ t → c ≠ f → t ≠ f →
  subPipeline b !! c = Some cs →
  subPipeline b !! t = Some ts →
  subPipeline b !! f = Some fs →
  ordinaryTarget sub = true →
  let r := matchIf c t f sub b in
  let reg3 := delete f (delete t (delete c (subPipeline b))) in
  let stage :=
    JObj [("$match",
      JObj [("$expr",
        JObj [("$cond",
          JObj [("if", JObj [("$and", JArr cs)]);
                ("then", JObj [("$and", JArr ts)]);
                ("else", JObj [("$and", JArr fs)])])])])] in
  outcome r = Normal tt ∧
  reg3 !! c = None ∧ reg3 !! t = None ∧ reg3 !! f = None ∧
  (∀ n, n ≠ c → n ≠ t → n ≠ f → reg3 !! n = subPipeline b !! n) ∧
  match truthy sub with
  | None =>
      pipeline (after r) = pipeline b ++ [stage] ∧ subPipeline (after r) = reg3
  | Some name =>
      pipeline (after r) = pipeline b ∧
      subPipeline (after r) = <[name := default [] (reg3 !! name) ++ [stage]]> reg3
  end.
Proof.
  intros Hct Hcf Htf Hc Ht Hf Ho. simpl.
  rewrite (matchIf_present _ _ _ _ _ _ _ _ Hct Hcf Htf Hc Ht Hf).
  rewrite (routeOutcome_ordinary _ _ _ Ho).
  unfold outcome, after, routed; cbn [fst snd].
  split; [done|].
  pose proof (lookup_consumed c t f (subPipeline b)) as Hl. unfold consumed in Hl.
  split; [rewrite Hl; case_decide; [done | exfalso; tauto]|].
  split; [rewrite Hl; case_decide; [done | exfalso; tauto]|].
  split; [rewrite Hl; case_decide; [done | exfalso; tauto]|].
  split; [intros n ? ? ?; rewrite Hl; case_decide; [exfalso; tauto | done]|].
  unfold ordinaryTarget in Ho.
  destruct (truthy sub) as [name|]; [|done].
  by rewrite (blocked_ordinary _ _ Ho).
Qed.

Lemma matchIf_consumes_three_witness :
  let b := exec [MatchEqual "age" (JNum 30) (Some "ageFilter");
                 MatchEqual "city" (JStr "New York") (Some "cityFilter");
                 MatchEqual "height" (JNum 160) (Some "heightFilter")]
             (constructor userModel) in
  let r := matchIf "ageFilter" "cityFilter" "heightFilter" None b in
  outcome r = Normal tt ∧
  pipeline (after r)
  = [condStage [matchEqualStage "age" (JNum 30)]
       [matchEqualStage "city" (JStr "New York")]
       [matchEqualStage "height" (JNum 160)]] ∧
  subPipeline (after r) = ∅.
Proof.
  simpl.
  pose proof (matchIf_consumes_three
    (exec [MatchEqual "age" (JNum 30) (Some "ageFilter");
           MatchEqual "city" (JStr "New York") (Some "cityFilter");
           MatchEqual "height" (JNum 160) (Some "heightFilter")]
       (constructor userModel))
    "ageFilter" "cityFilter" "heightFilter" None
    [matchEqualStage "age" (JNum 30)]
    [matchEqualStage "city" (JStr "New York")]
    [matchEqualStage "height" (JNum 160)]
    ltac:(discriminate) ltac:(discriminate) ltac:(discriminate)
    eq_refl eq_refl eq_refl eq_refl) as H.
  simpl in H. destruct H as (Ho & _ & _ & _ & _ & Hp & Hreg).
  split; [exact Ho|]. split; [exact Hp|]. rewrite Hreg. reflexivity.
Defined.

(** ** Splicing *)

(** X17.  For a name that is not an inherited one and whose entry, if any,
    the engine accepts as spread arguments, [appendSubPipeline] returns: an
    existing entry is appended in stored order to the main pipeline and
    deleted; without an entry the state is unchanged; and calling it twice
    in a row is the same as calling it once. *)
Theorem appendSubPipeline_splices_once (name : string) (b : Builder) :
  spliceable b name = true →
  appendSubPipeline name b
  = (Normal tt,
     match subPipeline b !! name with
     | Some stages =>
         mkBuilder (model b) (pipeline b ++ stages) (delete name (subPipeline b))
           (subPipelineCounter b)
     | None => b
     end) ∧
  (appendSubPipeline name;; appendSubPipeline name) b = appendSubPipeline name b ∧
  appendSubPipeline name (after (appendSubPipeline name b))
  = (Normal tt, after (appendSubPipeline name b)).
Proof.
  intros Hs. pose proof (appendSubPipeline_spliceable _ _ Hs) as H1.
  assert (Hs' : spliceable (after (appendSubPipeline name b)) name = true).
  { rewrite H1. unfold after; cbn [snd]. apply spliceable_spec in Hs as [Ho _].
    unfold spliceable. rewrite Ho.
    destruct (subPipeline b !! name) eqn:Hn; simpl.
    - by rewrite lookup_delete_eq.
    - by rewrite Hn. }
  assert (Hsecond : appendSubPipeline name (after (appendSubPipeline name b))
                    = (Normal tt, after (appendSubPipeline name b))).
  { rewrite (appendSubPipeline_spliceable _ _ Hs'). rewrite H1. unfold after; cbn [snd].
    destruct (subPipeline b !! name) eqn:Hn; simpl.
    - by rewrite lookup_delete_eq.
    - by rewrite Hn. }
  split; [exact H1|]. split; [|exact Hsecond].
  rewrite (bind_step _ _ _ _ _ H1). rewrite H1 in Hsecond.
  unfold after in Hsecond; cbn [snd] in Hsecond. rewrite Hsecond. by rewrite H1.
Qed.

Lemma appendSubPipeline_splices_once_witness :
  let b := after (matchEqual "age" (JNum 30) (Some "a") (constructor userModel)) in
  appendSubPipeline "a" b
  = (Normal tt, mkBuilder userModel [matchEqualStage "age" (JNum 30)] ∅ 0%N) ∧
  (appendSubPipeline "a";; appendSubPipeline "a") b = appendSubPipeline "a" b.
Proof.
  simpl.
  pose proof (appendSubPipeline_splices_once "a"
    (after (matchEqual "age" (JNum 30) (Some "a") (constructor userModel)))
    eq_refl) as (H1 & H2 & _).
  split; [|exact H2]. rewrite H1. reflexivity.
Defined.

Lemma after_appendSubPipeline n b :
  spliceable b n = true →
  after (invoke (AppendSubPipeline n) b)
  = mkBuilder (model b) (pipeline b ++ default [] (subPipeline b !! n))
      (delete n (subPipeline b)) (subPipelineCounter b).
Proof.
  intros Hs. cbn [invoke]. unfold chain.
  rewrite (bind_step _ _ _ _ _ (appendSubPipeline_spliceable _ _ Hs)).
  unfold after; cbn [snd].
  destruct (subPipeline b !! n) eqn:Hn; simpl; [done|].
  apply Builder_eq; simpl; try done.
  - by rewrite app_nil_r.
  - symmetry. by apply delete_id.
Qed.

(** X14.  Splicing two different names, neither an inherited one and each
    with an entry (if any) the engine accepts as spread arguments, appends
    their entries to the main pipeline in splice order (nothing for a name
    without entry) and removes both; the resulting registry does not depend
    on the order of the two splices. *)
Theorem splices_of_distinct_names (n1 n2 : string) (b : Builder) :
  n1 ≠ n2 →
  spliceable b n1 = true →
  spliceable b n2 = true →
  let b12 := exec [AppendSubPipeline n1; AppendSubPipeline n2] b in
  let b21 := exec [AppendSubPipeline n2; AppendSubPipeline n1] b in
  pipeline b12
  = pipeline b ++ default [] (subPipeline b !! n1) ++ default [] (subPipeline b !! n2) ∧
  subPipeline b12 = delete n2 (delete n1 (subPipeline b)) ∧
  subPipeline b12 = subPipeline b21.
Proof.
  intros Hne H1 H2. unfold exec; cbn [foldl].
  assert (Hkeep : ∀ n n', n ≠ n' → spliceable b n' = true →
            spliceable (mkBuilder (model b) (pipeline b ++ default [] (subPipeline b !! n))
                          (delete n (subPipeline b)) (subPipelineCounter b)) n' = true).
  { intros n n' Hn Hs. unfold spliceable in *. cbn [subPipeline model].
    by rewrite lookup_delete_ne. }
  rewrite (after_appendSubPipeline n1 b H1), (after_appendSubPipeline n2 b H2).
  rewrite !after_appendSubPipeline by (apply Hkeep; done). simpl.
  rewrite lookup_delete_ne by done. rewrite <- app_assoc.
  split; [done|]. split; [done|]. apply delete_delete.
Qed.

Lemma splices_of_distinct_names_witness :
  let b := exec [MatchEqual "age" (JNum 30) (Some "a"); Limit 10 (Some "b")]
             (constructor userModel) in
  pipeline (exec [AppendSubPipeline "b"; AppendSubPipeline "a"] b)
  = [limitStage 10; matchEqualStage "age" (JNum 30)].
Proof.
  simpl.
  pose proof (splices_of_distinct_names "b" "a"
    (exec [MatchEqual "age" (JNum 30) (Some "a"); Limit 10 (Some "b")]
       (constructor userModel)) ltac:(discriminate) eq_refl eq_refl) as H.
  simpl in H. exact (proj1 H).
Defined.

(** ** Named targets *)

(** X15.  A call that constructs its stages from its arguments, given an
    explicit non-empty target name that is not an inherited one, returns,
    leaves the main pipeline unchanged and appends its stages to the entry
    of that name, starting from an empty list when there is none; a call
    that constructs no stage creates no entry. *)
Theorem named_target_routes_to_entry (c : Call) (b : Builder) (name : string) :
  is_factory c = true →
  target c = Some name →
  name ≠ EmptyString →
  ordinary name = true →
  invoke c b
  = (Normal (returnedBy c),
     mkBuilder (model b) (pipeline b)
       match constructed (model b) c with
       | [] => subPipeline b
       | stages =>
           <[name := default [] (subPipeline b !! name) ++ stages]> (subPipeline b)
       end
       (subPipelineCounter b)).
Proof.
  intros Hf Ht Hne Ho.
  rewrite (invoke_factory _ _ Hf)
    by (apply routeOutcome_ordinary; unfold ordinaryTarget;
        by rewrite Ht, (truthy_explicit _ Hne)).
  rewrite Ht. unfold routed. rewrite (truthy_explicit _ Hne), (blocked_ordinary _ _ Ho).
  f_equal. destruct (constructed (model b) c); [|done].
  by apply Builder_eq.
Qed.

Lemma named_target_routes_to_entry_witness :
  invoke (MatchEqual "age" (JNum 30) (Some "ageFilter")) (constructor userModel)
  = (Normal This,
     mkBuilder userModel [] {[ "ageFilter" := [matchEqualStage "age" (JNum 30)] ]} 0%N).
Proof.
  exact (named_target_routes_to_entry
    (MatchEqual "age" (JNum 30) (Some "ageFilter")) (constructor userModel) "ageFilter"
    eq_refl eq_refl ltac:(discriminate) eq_refl).
Defined.

(** X18.  With a target that is not an inherited name, [lookup] completes
    and routes, in the order of the input fields, exactly one [$lookup]
    stage per field with a declared relation, its attachment named
    [<field>Details]; fields without a relation contribute nothing and
    raise nothing. *)
Theorem lookup_emits_declared_relations (fields : list string) (sub : option string)
    (b : Builder) :
  ordinaryTarget sub = true →
  let emitted :=
    omap (λ field,
            match schemaRef (model b) field with
            | Some ref =>
                Some (JObj [("$lookup",
                        JObj [("from", JStr (collectionName (model b) ref));
                              ("localField", JStr field);
                              ("foreignField", JStr "_id");
                              ("as", JStr (field +:+ "Details"))])])
            | None => None
            end) fields in
  invoke (Lookup fields sub) b
  = (Normal (PromiseOfThis Fulfilled),
     match truthy sub, emitted with
     | None, _ =>
         mkBuilder (model b) (pipeline b ++ emitted) (subPipeline b)
           (subPipelineCounter b)
     | Some name, [] => b
     | Some name, _ :: _ =>
         mkBuilder (model b) (pipeline b)
           (<[name := default [] (subPipeline b !! name) ++ emitted]> (subPipeline b))
           (subPipelineCounter b)
     end).
Proof.
  intros Ho. simpl. unfold async. rewrite lookup_routed.
  rewrite (routeOutcome_ordinary _ _ _ Ho). unfold joinStages, lookupStage, routed.
  unfold ordinaryTarget in Ho. f_equal.
  destruct (truthy sub) as [name|]; [|done].
  rewrite (blocked_ordinary _ _ Ho). done.
Qed.

Lemma lookup_emits_declared_relations_witness :
  invoke (Lookup ["name"; "friendId"] None) (constructor userModel)
  = (Normal (PromiseOfThis Fulfilled),
     mkBuilder userModel [lookupStage "friends" "friendId"] ∅ 0%N).
Proof.
  exact (lookup_emits_declared_relations ["name"; "friendId"] None
           (constructor userModel) eq_refl).
Defined.

(** ** The registry as the class keeps it *)

(** X19.  In every state reached from a fresh builder by public calls
    (including calls that threw), no registry entry is an empty list, none
    is keyed by the empty string or by an inherited name, and
    [getAndRemoveSubPipeline] returns the own entry of a name that is not
    inherited (null when there is none), never an empty list. *)
Theorem registry_entries_nonempty (m : Model) (cs : list Call) (name : string) :
  let b := exec cs (constructor m) in
  subPipeline b !! name ≠ Some [] ∧
  subPipeline b !! EmptyString = None ∧
  (subPipeline b !! name = None ∨ inherited name = false) ∧
  outcome (getAndRemoveSubPipeline name b)
  = Normal (if inherited name then Some (Inherited name)
            else Own <$> subPipeline b !! name) ∧
  outcome (getAndRemoveSubPipeline name b) ≠ Normal (Some (Own [])).
Proof.
  simpl. pose proof (well_formed_exec m cs) as (He & Hi & Hn).
  assert (Hv : property (subPipeline (exec cs (constructor m))) name
               = if inherited name then Some (Inherited name)
                 else Own <$> subPipeline (exec cs (constructor m)) !! name).
  { unfold property. destruct (inherited name) eqn:Hin.
    - by rewrite (Hi _ Hin).
    - by destruct (subPipeline (exec cs (constructor m)) !! name). }
  split; [apply Hn|]. split; [exact He|]. split.
  - destruct (inherited name) eqn:Hin; [left; by apply Hi | by right].
  - rewrite getAndRemoveSubPipeline_spec. unfold outcome; cbn [fst].
    rewrite Hv. split; [done|].
    destruct (inherited name); [done|].
    destruct (subPipeline (exec cs (constructor m)) !! name) as [l|] eqn:Hl; [|done].
    simpl. intros [= ->]. by apply (Hn name).
Qed.
